(** * go-hal: the augmentation engine, embedded and verified

    A shallow embedding of package [hal]: the type-keyed registry
    (registry.go), the envelope and its link map, the byte-level JSON
    splicer (both the refactored marshalling file and the earlier
    single-function one), and the collection wrapper.

    Conventions of the embedding.
    - A Go [[]byte] is a [list byte]; a Go [string] is a [string].
    - A Go map is a [gmap]; the order in which a [range] statement visits
      the keys of a map is chosen by the Go runtime, so every function
      that ranges over a map takes that order as an argument.
    - A function that mutates its receiver returns the new receiver.
    - A function that may panic returns an [outcome]; a function that
      returns [(T, error)] returns a [res T].
    - The registry an envelope points to is passed to the envelope's
      methods explicitly: it is the state the pointer [e.instance] leads
      to at the time of the call. *)

From Stdlib Require Import ZArith String Ascii.
From Stdlib.Strings Require Import Byte.
From stdpp Require Import base option list gmap strings sorting.

Set Warnings "-register-all".

#[global] Instance byte_eq_dec : EqDecision byte := Byte.byte_eq_dec.

Abbreviation bytes := (list byte).

(** A string literal as a byte slice, [[]byte("...")]. *)
Definition B (s : string) : bytes := list_byte_of_string s.

(** ** Results, errors and panics *)

(** A Go [error] value, identified by its message. *)
Definition error := string.

Inductive res (A : Type) : Type :=
  | Ok (a : A)
  | Err (e : error).
Arguments Ok {A} a.
Arguments Err {A} e.

(** ** reflect.Type, as far as the package inspects it *)

Inductive Kind :=
  | KInvalid
  | KBool | KInt | KFloat64 | KString | KMap | KStruct | KPtr | KSlice.

Inductive GoType :=
  | TBool
  | TInt
  | TFloat64
  | TString
  | TStruct (name : string)
  | TPtr (elem : GoType)
  | TSlice (elem : GoType)
  | TMap (key elem : GoType).

#[global] Instance Kind_eq_dec : EqDecision Kind.
Proof. solve_decision. Defined.

#[global] Instance GoType_eq_dec : EqDecision GoType.
Proof. solve_decision. Defined.

Fixpoint GoType_to_tree (t : GoType) : gen_tree string :=
  match t with
  | TBool => GenLeaf "bool"
  | TInt => GenLeaf "int"
  | TFloat64 => GenLeaf "float64"
  | TString => GenLeaf "string"
  | TStruct name => GenNode 0 [GenLeaf name]
  | TPtr elem => GenNode 1 [GoType_to_tree elem]
  | TSlice elem => GenNode 2 [GoType_to_tree elem]
  | TMap key elem => GenNode 3 [GoType_to_tree key; GoType_to_tree elem]
  end.

Fixpoint GoType_of_tree (g : gen_tree string) : option GoType :=
  match g with
  | GenLeaf s =>
      if decide (s = "bool") then Some TBool
      else if decide (s = "int") then Some TInt
      else if decide (s = "float64") then Some TFloat64
      else if decide (s = "string") then Some TString
      else None
  | GenNode 0 [GenLeaf name] => Some (TStruct name)
  | GenNode 1 [g1] => TPtr <$> GoType_of_tree g1
  | GenNode 2 [g1] => TSlice <$> GoType_of_tree g1
  | GenNode 3 [g1; g2] =>
      match GoType_of_tree g1, GoType_of_tree g2 with
      | Some k, Some e => Some (TMap k e)
      | _, _ => None
      end
  | _ => None
  end.

#[global] Instance GoType_countable : Countable GoType.
Proof.
  refine (inj_countable GoType_to_tree GoType_of_tree _).
  intros t.
  induction t as [| | | |name|elem IH|elem IH|key IHk elem IHe]; simpl;
    try done.
  - by rewrite IH.
  - by rewrite IH.
  - by rewrite IHk, IHe.
Defined.

(** [t.Kind()] *)
Definition KindOf (t : GoType) : Kind :=
  match t with
  | TBool => KBool
  | TInt => KInt
  | TFloat64 => KFloat64
  | TString => KString
  | TStruct _ => KStruct
  | TPtr _ => KPtr
  | TSlice _ => KSlice
  | TMap _ _ => KMap
  end.

(** [t.Elem()], defined for the kinds that have an element type. *)
Definition Elem (t : GoType) : option GoType :=
  match t with
  | TPtr elem | TSlice elem | TMap _ elem => Some elem
  | _ => None
  end.

(** [reflect.PointerTo(t)] *)
Definition PointerTo (t : GoType) : GoType := TPtr t.

(** ** Values held in an [any] *)

(** A non-nil interface value, as far as the package observes it: its
    dynamic type ([reflect.TypeOf]), what [json.Marshal] returns for it,
    and, when it is a slice, its elements ([Value.Index(i).Interface()]).
    The nil interface is [None] in an [option Dyn]. *)
Inductive Dyn :=
  | mkDyn (t : GoType) (js : res bytes) (elems : list (option Dyn)).

Definition TypeOf (d : Dyn) : GoType := let '(mkDyn t _ _) := d in t.
Definition jsonMarshal (d : Dyn) : res bytes := let '(mkDyn _ js _) := d in js.
Definition elemsOf (d : Dyn) : list (option Dyn) :=
  let '(mkDyn _ _ elems) := d in elems.

(** ** types: Link, Envelope *)

Record Link := mkLink {
  Rel : string;
  Href : string;
  Templated : bool;
  Type_ : string;
  Title : string;
  Name : string;
  Method : string
}.

#[global] Instance Link_eq_dec : EqDecision Link.
Proof. solve_decision. Defined.

(** The values the package stores under a relation of [map[string]any]:
    a [Link] (AddLink), a [[]Link] (the curies injected when encoding)
    or a [[]any] (two or more values under one relation). *)
Inductive LinkValue :=
  | ALink (l : Link)
  | ALinks (ls : list Link)
  | ASlice (xs : list LinkValue).

Record Envelope := mkEnvelope {
  Data : option Dyn;
  links : gmap string LinkValue;
  embedded : gmap string LinkValue
}.

(** What a panic carries.  The messages of the source are
    ["hal: strict mode error. Passed value type %v, but generator
    registered for pointer type %v"], ["hal: strict mode error. No
    generator registered for type %v"] and ["hal: Collection items must
    be a slice"]; [SliceBounds] is the runtime's panic for a slice
    expression out of range. *)
Inductive PanicValue :=
  | StrictPointerMismatch (t ptrT : GoType)
  | StrictNoGenerator (t : GoType)
  | CollectionNotSlice
  | SliceBounds.

Inductive outcome (A : Type) : Type :=
  | Return (a : A)
  | Panic (p : PanicValue).
Arguments Return {A} a.
Arguments Panic {A} p.

(** ** The collaborators outside the package

    [context.Context], [bytes.TrimSpace] and the rendering of a Go string
    as a JSON string literal by [encoding/json] are not code of the
    package.  The package passes a context through to generators without
    looking at it. *)
Class Runtime := {
  GoContext : Type;
  TrimSpace : bytes → bytes;
  jsonString : string → bytes
}.

(** ** registry: Instance, generators, CURIEs *)

Section registry.
Context `{Runtime}.

(** [type Generator func(ctx context.Context, v any) []Link] *)
Definition Generator : Type := GoContext → Dyn → list Link.

(** The lock [mu] has no counterpart: calls are modelled one at a
    time. *)
Record Instance := mkInstance {
  generators : gmap GoType Generator;
  curies : gmap string string;
  strictMode : bool
}.

Definition InstanceOption : Type := Instance → Instance.

Definition WithStrictMode : InstanceOption :=
  λ i, mkInstance (generators i) (curies i) true.

Definition New (opts : list InstanceOption) : Instance :=
  foldl (λ i opt, opt i) (mkInstance ∅ ∅ false) opts.

Definition RegisterCurie (i : Instance) (prefix href : string) : Instance :=
  mkInstance (generators i) (<[prefix := href]> (curies i)) (strictMode i).

(** [RegisterInstance[T]]: the key is the pointer type [*T]. *)
Definition RegisterInstance (T : GoType) (i : Instance) (gen : Generator)
    : Instance :=
  let targetType := PointerTo T in
  let adapter : Generator := λ ctx v, gen ctx v in
  mkInstance (<[targetType := adapter]> (generators i)) (curies i)
    (strictMode i).

(** [registerReflect]: the key is the type of the generator's second
    parameter, whatever it is. *)
Definition registerReflect (i : Instance) (targetType : GoType)
    (gen : Generator) : Instance :=
  mkInstance (<[targetType := gen]> (generators i)) (curies i)
    (strictMode i).

Definition lookupGenerator (i : Instance) (t : GoType) : option Generator :=
  generators i !! t.

(** [strings.IndexByte(s, c)]: the index of the first [c] in [s], or
    [-1]. *)
Fixpoint IndexByte (s : string) (c : ascii) : Z :=
  match s with
  | EmptyString => (-1)%Z
  | String a s' =>
      if Ascii.eqb a c then 0%Z
      else let r := IndexByte s' c in
           if (r <? 0)%Z then (-1)%Z else (1 + r)%Z
  end.

(** One iteration of the loop of [resolveCuries]. *)
Definition resolveCuries_step (i : Instance) (used : list Link)
    (rel : string) : list Link :=
  let idx := IndexByte rel ":"%char in
  if (0 <? idx)%Z then
    let prefix := substring 0 (Z.to_nat idx) rel in
    match curies i !! prefix with
    | Some href => used ++ [mkLink "curies" href true "" "" prefix ""]
    | None => used
    end
  else used.

(** [order] is the order in which [for rel := range links] visits the
    relations. *)
Definition resolveCuries (i : Instance) (links : gmap string LinkValue)
    (order : list string) : list Link :=
  if (size (curies i) =? 0)%nat || (size links =? 0)%nat then []
  else foldl (resolveCuries_step i) [] order.

(** The orders a [range] over [m] may take: the keys of [m], each
    once. *)
Definition range_order {V} (m : gmap string V) (order : list string) : Prop :=
  order ≡ₚ (map_to_list m).*1.

(** ** envelope: link accumulation *)

Definition addLinkRaw (e : Envelope) (rel : string) (val : LinkValue)
    : Envelope :=
  match links e !! rel with
  | Some existing =>
      match existing with
      | ASlice slice =>
          mkEnvelope (Data e) (<[rel := ASlice (slice ++ [val])]> (links e))
            (embedded e)
      | _ =>
          mkEnvelope (Data e) (<[rel := ASlice [existing; val]]> (links e))
            (embedded e)
      end
  | None => mkEnvelope (Data e) (<[rel := val]> (links e)) (embedded e)
  end.

Definition AddLink (e : Envelope) (l : Link) : Envelope :=
  addLinkRaw e (Rel l) (ALink l).

Definition isStructOrPtrToStruct (t : GoType) : bool :=
  bool_decide (KindOf t = KStruct)
  || (bool_decide (KindOf t = KPtr)
      && match Elem t with
         | Some el => bool_decide (KindOf el = KStruct)
         | None => false
         end).

Definition computeLinks (i : Instance) (ctx : GoContext) (e : Envelope)
    : outcome Envelope :=
  match Data e with
  | None => Return e
  | Some d =>
      let t := TypeOf d in
      match lookupGenerator i t with
      | Some gen => Return (foldl AddLink e (gen ctx d))
      | None =>
          if strictMode i then
            let ptrT := PointerTo t in
            match lookupGenerator i ptrT with
            | Some _ => Panic (StrictPointerMismatch t ptrT)
            | None =>
                if isStructOrPtrToStruct t then Panic (StrictNoGenerator t)
                else Return e
            end
          else Return e
      end
  end.

Definition Wrap (i : Instance) (ctx : GoContext) (data : option Dyn)
    : outcome Envelope :=
  computeLinks i ctx (mkEnvelope data ∅ ∅).

End registry.

(** ** encoding/json on the metadata

    What [json.Marshal] does with the values the package hands to it: a
    struct is an object of its fields in declaration order, a field
    tagged [omitempty] is left out when it is the zero value, [Rel] is
    tagged ["-"]; a slice is an array in slice order; a map is an object
    whose keys are sorted as byte strings.  How a string is quoted and
    escaped is left to [jsonString].  The package never stores an empty
    slice, so the rendering of one (["[]"] here) is never observed. *)

Section json.
Context `{Runtime}.

Definition dquote : byte := x22.

(** A field name of the package, quoted, followed by the colon. *)
Definition jsonField (name : string) : bytes :=
  dquote :: B name ++ [dquote] ++ B ":".

Fixpoint joinComma (items : list bytes) : bytes :=
  match items with
  | [] => []
  | [x] => x
  | x :: rest => x ++ B "," ++ joinComma rest
  end.

Definition jsonArray (items : list bytes) : bytes :=
  B "[" ++ joinComma items ++ B "]".

Definition omitempty (name : string) (v : string) : bytes :=
  if decide (v = "") then [] else B "," ++ jsonField name ++ jsonString v.

Definition jsonLink (l : Link) : bytes :=
  B "{" ++ jsonField "href" ++ jsonString (Href l)
    ++ (if Templated l then B "," ++ jsonField "templated" ++ B "true" else [])
    ++ omitempty "type" (Type_ l)
    ++ omitempty "title" (Title l)
    ++ omitempty "name" (Name l)
    ++ omitempty "method" (Method l)
    ++ B "}".

Fixpoint jsonValue (v : LinkValue) : bytes :=
  match v with
  | ALink l => jsonLink l
  | ALinks ls => jsonArray (jsonLink <$> ls)
  | ASlice xs => jsonArray (jsonValue <$> xs)
  end.

Definition keyLe {V} (a b : string * V) : Prop := String.leb a.1 b.1.

#[global] Instance keyLe_dec {V} : RelDecision (@keyLe V).
Proof. intros a b. unfold keyLe. apply _. Defined.

Definition jsonMember {V} (enc : V → bytes) (kv : string * V) : bytes :=
  jsonString kv.1 ++ B ":" ++ enc kv.2.

Definition jsonObject {V} (enc : V → bytes) (m : gmap string V) : bytes :=
  B "{" ++ joinComma (jsonMember enc <$> merge_sort keyLe (map_to_list m))
    ++ B "}".

End json.

(** ** marshal: the encoder and the splicer (refactored file) *)

Section marshal.
Context `{Runtime}.

Definition errNotObject : error := "hal: data must be a JSON object to splice".

Definition marshalData (e : Envelope) : res bytes :=
  match Data e with
  | None => Ok []
  | Some d =>
      match jsonMarshal d with
      | Err err => Err err
      | Ok b => Ok (TrimSpace b)
      end
  end.

(** Returns [(isNull, isEmptyObject)] or the error. *)
Definition checkJSONStructure (b : bytes) : res (bool * bool) :=
  if (length b =? 0)%nat || bool_decide (b = B "null") then Ok (true, false)
  else if negb (bool_decide (b !! 0%nat = Some "{"%byte)) then Err errNotObject
  else if (length b =? 2)%nat && bool_decide (b !! 1%nat = Some "}"%byte)
       then Ok (false, true)
  else Ok (false, false).

(** The map [meta] built by [marshalMeta]. *)
Definition buildMeta (e : Envelope) : gmap string (gmap string LinkValue) :=
  let meta := ∅ in
  let meta := if (0 <? size (links e))%nat
              then <["_links" := links e]> meta else meta in
  let meta := if (0 <? size (embedded e))%nat
              then <["_embedded" := embedded e]> meta else meta in
  meta.

(** The injection of the resolved curies, the first statement of
    [marshalMeta]. *)
Definition injectCuries (i : Instance) (e : Envelope) (order : list string)
    : Envelope :=
  let curies := resolveCuries i (links e) order in
  if (0 <? length curies)%nat then addLinkRaw e "curies" (ALinks curies)
  else e.

Definition marshalMeta (i : Instance) (e : Envelope) (order : list string)
    : res bytes * Envelope :=
  let e := injectCuries i e order in
  let meta := buildMeta e in
  if (size meta =? 0)%nat then (Ok [], e)
  else (Ok (jsonObject (jsonObject jsonValue) meta), e).

Definition spliceJSON (data meta : bytes) (isDataNull isDataEmptyObj : bool)
    : outcome bytes :=
  if (length meta =? 0)%nat then
    if isDataNull then Return (B "{}") else Return data
  else if isDataNull || isDataEmptyObj then Return meta
  else if (length data =? 0)%nat then Panic SliceBounds
  else Return (take (length data - 1) data ++ B "," ++ drop 1 meta).

Definition MarshalJSON (i : Instance) (e : Envelope) (order : list string)
    : outcome (res bytes) * Envelope :=
  match marshalData e with
  | Err err => (Return (Err err), e)
  | Ok dataBytes =>
      match checkJSONStructure dataBytes with
      | Err err => (Return (Err err), e)
      | Ok (isDataNull, isEmptyObj) =>
          match marshalMeta i e order with
          | (Err err, e') => (Return (Err err), e')
          | (Ok metaBytes, e') =>
              match spliceJSON dataBytes metaBytes isDataNull isEmptyObj with
              | Return out => (Return (Ok out), e')
              | Panic p => (Panic p, e')
              end
          end
      end
  end.

End marshal.

(** ** marshal: the earlier single-function encoder *)

Module Inline.
Section marshal.
Context `{Runtime}.

Definition MarshalJSON (i : Instance) (e : Envelope) (order : list string)
    : outcome (res bytes) * Envelope :=
  match (match Data e with None => Ok [] | Some d => jsonMarshal d end) with
  | Err err => (Return (Err err), e)
  | Ok dataBytes =>
      let dataBytes := TrimSpace dataBytes in
      let isDataNull :=
        (length dataBytes =? 0)%nat || bool_decide (dataBytes = B "null") in
      let shape : res bool :=
        if negb isDataNull && (2 <=? length dataBytes)%nat then
          if bool_decide (dataBytes !! 0%nat = Some "{"%byte) then
            let rest := TrimSpace (drop 1 dataBytes) in
            Ok ((length rest =? 1)%nat
                && bool_decide (rest !! 0%nat = Some "}"%byte))
          else Err errNotObject
        else Ok false in
      match shape with
      | Err err => (Return (Err err), e)
      | Ok isDataEmptyObj =>
          let e := injectCuries i e order in
          let meta := buildMeta e in
          if (size meta =? 0)%nat then
            if isDataNull then (Return (Ok (B "{}")), e)
            else (Return (Ok dataBytes), e)
          else
            let metaBytes := jsonObject (jsonObject jsonValue) meta in
            if isDataNull || isDataEmptyObj then (Return (Ok metaBytes), e)
            else if (length dataBytes =? 0)%nat then (Panic SliceBounds, e)
            else (Return (Ok (take (length dataBytes - 1) dataBytes
                                ++ B "," ++ drop 1 metaBytes)), e)
      end
  end.

End marshal.
End Inline.

(** ** collection *)

Section collection.
Context `{Runtime}.

(** [Embedded] holds one entry, the slice of envelopes under ["items"];
    the envelopes are freshly allocated, one per item. *)
Record CollectionPage := mkCollectionPage {
  Links : gmap string LinkValue;
  Embedded : gmap string (list Envelope);
  Count : Z;
  Total : Z
}.

(** [reflect.ValueOf(items).Kind()]: [Invalid] for the nil interface. *)
Definition ValueKind (v : option Dyn) : Kind :=
  match v with
  | None => KInvalid
  | Some d => KindOf (TypeOf d)
  end.

(** The loop of [Collection]: the items are wrapped first to last, and
    the first panic ends the call. *)
Fixpoint wrapItems (i : Instance) (ctx : GoContext)
    (items : list (option Dyn)) : outcome (list Envelope) :=
  match items with
  | [] => Return []
  | item :: rest =>
      match Wrap i ctx item with
      | Panic p => Panic p
      | Return env =>
          match wrapItems i ctx rest with
          | Panic p => Panic p
          | Return envs => Return (env :: envs)
          end
      end
  end.

Definition Collection (i : Instance) (ctx : GoContext) (items : option Dyn)
    (total : Z) (selfLink : Link) : outcome CollectionPage :=
  if negb (bool_decide (ValueKind items = KSlice)) then
    Panic CollectionNotSlice
  else
    let elems := from_option elemsOf [] items in
    let count := Z.of_nat (length elems) in
    match wrapItems i ctx elems with
    | Panic p => Panic p
    | Return embeddedItems =>
        let links : gmap string LinkValue := <["self" := ALink selfLink]> ∅ in
        Return (mkCollectionPage links (<["items" := embeddedItems]> ∅)
                  count total)
    end.

End collection.

(** ** A concrete runtime, and sample data

    [asciiRuntime] agrees with Go on ASCII input whose strings need no
    escaping: [TrimSpace] strips tab, line feed, vertical tab, form feed,
    carriage return and space from both ends, and a string is rendered
    between two quotation marks. *)

Definition isAsciiSpace (b : byte) : bool :=
  bool_decide (b ∈ [x09; x0a; x0b; x0c; x0d; x20]).

Fixpoint trimLeft (b : bytes) : bytes :=
  match b with
  | c :: rest => if isAsciiSpace c then trimLeft rest else b
  | [] => []
  end.

Definition asciiTrimSpace (b : bytes) : bytes :=
  reverse (trimLeft (reverse (trimLeft b))).

Definition plainQuote (s : string) : bytes := x22 :: B s ++ [x22].

Definition asciiRuntime : Runtime :=
  {| GoContext := unit; TrimSpace := asciiTrimSpace; jsonString := plainQuote |}.

Module Sample.

Definition User : GoType := TStruct "User".

Definition aliceJSON : bytes :=
  B "{" ++ plainQuote "id" ++ B ":101," ++ plainQuote "name" ++ B ":"
    ++ plainQuote "Alice" ++ B "}".

Definition bobJSON : bytes :=
  B "{" ++ plainQuote "id" ++ B ":102," ++ plainQuote "name" ++ B ":"
    ++ plainQuote "Bob" ++ B "}".

(** [&User{ID: 101, Name: "Alice"}] and [&User{ID: 102, Name: "Bob"}] *)
Definition alice : Dyn := mkDyn (TPtr User) (Ok aliceJSON) [].
Definition bob : Dyn := mkDyn (TPtr User) (Ok bobJSON) [].

(** [[]*User{alice, bob}] *)
Definition users : Dyn :=
  mkDyn (TSlice (TPtr User)) (Ok (B "[" ++ aliceJSON ++ B "," ++ bobJSON ++ B "]"))
    [Some alice; Some bob].

(** [User{}] passed by value *)
Definition userValue : Dyn := mkDyn User (Ok (B "{}")) [].

(** [42] and [7] *)
Definition fortyTwo : Dyn := mkDyn TInt (Ok (B "42")) [].
Definition seven : Dyn := mkDyn TInt (Ok (B "7")) [].

Definition selfLink (href : string) : Link := mkLink "self" href false "" "" "" "".
Definition relLink (rel href : string) : Link := mkLink rel href false "" "" "" "".

Definition noLinks : @Generator asciiRuntime := λ _ _, [].

Definition permissive : @Instance asciiRuntime := New [].
Definition strict : @Instance asciiRuntime := New [WithStrictMode].

(** A registry with the CURIE prefixes [acme] and [doc]. *)
Definition withCuries : @Instance asciiRuntime :=
  RegisterCurie (RegisterCurie (New []) "acme" "https://docs/{rel}")
    "doc" "https://doc/{rel}".

(** A registry whose generator for [*User] returns one self link. *)
Definition withSelf : @Instance asciiRuntime :=
  RegisterInstance User (New []) (λ _ _, [selfLink "/users/101"]).

Definition selfMeta : bytes :=
  B "{" ++ plainQuote "_links" ++ B ":{" ++ plainQuote "self" ++ B ":{"
    ++ plainQuote "href" ++ B ":" ++ plainQuote "/users/101" ++ B "}}}".

Definition aliceHAL : bytes :=
  B "{" ++ plainQuote "id" ++ B ":101," ++ plainQuote "name" ++ B ":"
    ++ plainQuote "Alice" ++ B "," ++ plainQuote "_links" ++ B ":{"
    ++ plainQuote "self" ++ B ":{" ++ plainQuote "href" ++ B ":"
    ++ plainQuote "/users/101" ++ B "}}}".

(** What [Wrap] returns for [alice] under [withSelf]. *)
Definition aliceEnvelope : Envelope :=
  mkEnvelope (Some alice) (<["self" := ALink (selfLink "/users/101")]> ∅) ∅.

(** The page [Collection] returns for [users], total 7 and a link
    whose own relation is [next], under the permissive registry. *)
Definition usersPage : CollectionPage :=
  mkCollectionPage (<["self" := ALink (relLink "next" "/next")]> ∅)
    (<["items" := [mkEnvelope (Some alice) ∅ ∅; mkEnvelope (Some bob) ∅ ∅]]> ∅)
    2 7.

(** The link map left by a generator that returns [acme:a] and
    [acme:b], two relations with one prefix. *)
Definition twoAcme : Envelope :=
  foldl AddLink (mkEnvelope (Some alice) ∅ ∅)
    [relLink "acme:a" "/a"; relLink "acme:b" "/b"].

(** The link map left by a generator that returns [acme:a] and
    [doc:b], two relations with two prefixes. *)
Definition acmeDoc : Envelope :=
  foldl AddLink (mkEnvelope (Some alice) ∅ ∅)
    [relLink "acme:a" "/a"; relLink "doc:b" "/b"].

(** The link map left by a generator that returns [acme:a] and
    [self]: one relation with a registered prefix. *)
Definition acmeSelf : Envelope :=
  foldl AddLink (mkEnvelope (Some alice) ∅ ∅)
    [relLink "acme:a" "/a"; selfLink "/users/101"].


Definition acmeSelfInjected : Envelope :=
  (MarshalJSON withCuries acmeSelf ["acme:a"; "self"]).2.

End Sample.

(** ** Vocabulary of the statements *)

(** What a relation holds after the links [ls] were added under it, in
    that order, to an envelope that had nothing under it. *)
Definition stored (ls : list Link) : option LinkValue :=
  match ls with
  | [] => None
  | [l] => Some (ALink l)
  | _ => Some (ASlice (ALink <$> ls))
  end.

(** The prefix [resolveCuries] reads off a relation name: what precedes
    the first colon, when that colon is not the first byte. *)
Definition curiePrefix (rel : string) : option string :=
  let idx := IndexByte rel ":"%char in
  if (0 <? idx)%Z then Some (substring 0 (Z.to_nat idx) rel) else None.

(** The synthetic link emitted for a prefix. *)
Definition curieLink (prefix href : string) : Link :=
  mkLink "curies" href true "" "" prefix "".

Section vocabulary.
Context `{Runtime}.

(** The links one relation name contributes to the result of
    [resolveCuries]: one when its prefix is registered, none otherwise. *)
Definition curiesOf (i : Instance) (rel : string) : list Link :=
  match curiePrefix rel with
  | Some prefix =>
      match curies i !! prefix with
      | Some href => [curieLink prefix href]
      | None => []
      end
  | None => []
  end.

Definition hasCurie (i : Instance) (rel : string) : bool :=
  bool_decide (curiesOf i rel ≠ []).

End vocabulary.

(** ** registry: introspection *)

Section introspection.
Context `{Runtime}.

(** [order] is the order in which [for t := range i.generators] visits
    the registered types. *)
Definition RegisteredTypes (i : Instance) (order : list GoType) : list GoType :=
  foldl (λ types t, types ++ [t]) [] order.

(** The orders a [range] over the generator table may take. *)
Definition type_order (i : Instance) (order : list GoType) : Prop :=
  order ≡ₚ (map_to_list (generators i)).*1.

End introspection.

(** ** The earlier encoder's classification

    The three tests the earlier [MarshalJSON] makes on the trimmed bytes
    of the record before it combines: [isDataNull], whether the shape
    check returns the error (it is made only on bytes that are not null
    and at least two long), and [isDataEmptyObj]. *)

Section inline_classification.
Context `{Runtime}.

Definition isDataNull (dataBytes : bytes) : bool :=
  (length dataBytes =? 0)%nat || bool_decide (dataBytes = B "null").

Definition inlineShapeError (dataBytes : bytes) : bool :=
  negb (isDataNull dataBytes) && (2 <=? length dataBytes)%nat
  && negb (bool_decide (dataBytes !! 0%nat = Some "{"%byte)).

Definition isDataEmptyObj (dataBytes : bytes) : bool :=
  negb (isDataNull dataBytes) && (2 <=? length dataBytes)%nat
  && bool_decide (dataBytes !! 0%nat = Some "{"%byte)
  && (let rest := TrimSpace (drop 1 dataBytes) in
      (length rest =? 1)%nat && bool_decide (rest !! 0%nat = Some "}"%byte)).

End inline_classification.

(** What an encoder returns when its combine step returns [o]. *)
Definition combined (o : outcome bytes) : outcome (res bytes) :=
  match o with
  | Return out => Return (Ok out)
  | Panic p => Panic p
  end.

(** Bytes that open with a brace and close with one. *)
Definition framed (b : bytes) : Prop :=
  head b = Some "{"%byte ∧ last b = Some "}"%byte.

Module More.

Definition Order : GoType := TStruct "Order".

(** A registry with generators for [*User] and [*Order]. *)
Definition twoTypes : @Instance asciiRuntime :=
  RegisterInstance Order
    (RegisterInstance Sample.User (New [WithStrictMode])
       (λ _ _, [Sample.selfLink "/users/101"; Sample.relLink "next" "/n";
                Sample.selfLink "/users/101/alt"]))
    (λ _ _, [Sample.selfLink "/orders/1"]).

(** [[]*User{}] *)
Definition noUsers : Dyn := mkDyn (TSlice (TPtr Sample.User)) (Ok (B "[]")) [].

End More.

(** * Properties *)

(** Decides [range_order] on a closed map and a closed list. *)
Ltac solve_range_order :=
  unfold range_order; vm_compute;
  apply (bool_decide_unpack _); vm_compute; exact I.

(** ** The link map: single value, then list *)

Lemma addLinkRaw_other (e : Envelope) (rel rel' : string) (val : LinkValue) :
  rel ≠ rel' → links (addLinkRaw e rel val) !! rel' = links e !! rel'.
Proof.
  intros Hne. unfold addLinkRaw.
  destruct (links e !! rel) as [[l|ls|xs]|]; simpl;
    by rewrite lookup_insert_ne.
Qed.

Lemma addLinkRaw_fresh (e : Envelope) (rel : string) (val : LinkValue) :
  links e !! rel = None → links (addLinkRaw e rel val) !! rel = Some val.
Proof.
  intros Hnone. unfold addLinkRaw. rewrite Hnone. simpl.
  by rewrite lookup_insert_eq.
Qed.

(** Nothing stored under a relation is dropped by a later addition: a
    [[]any] grows at its end, any other value becomes the first element
    of a two-element [[]any]. *)
Lemma addLinkRaw_existing (e : Envelope) (rel : string) (v val : LinkValue) :
  links e !! rel = Some v →
  links (addLinkRaw e rel val) !! rel =
    Some (match v with
          | ASlice xs => ASlice (xs ++ [val])
          | _ => ASlice [v; val]
          end).
Proof.
  intros Hsome. unfold addLinkRaw. rewrite Hsome.
  destruct v; simpl; by rewrite lookup_insert_eq.
Qed.

Lemma addLinkRaw_Data (e : Envelope) rel val :
  Data (addLinkRaw e rel val) = Data e.
Proof. unfold addLinkRaw. by destruct (links e !! rel) as [[]|]. Qed.

Lemma addLinkRaw_embedded (e : Envelope) rel val :
  embedded (addLinkRaw e rel val) = embedded e.
Proof. unfold addLinkRaw. by destruct (links e !! rel) as [[]|]. Qed.

Lemma stored_snoc (e : Envelope) (ls : list Link) (l : Link) :
  links e !! Rel l = stored ls →
  links (AddLink e l) !! Rel l = stored (ls ++ [l]).
Proof.
  intros Hst. unfold AddLink.
  destruct ls as [|l1 [|l2 ls]].
  - by apply addLinkRaw_fresh.
  - by rewrite (addLinkRaw_existing _ _ _ _ Hst).
  - rewrite (addLinkRaw_existing _ _ _ _ Hst). simpl.
    by rewrite fmap_app.
Qed.

(** C2.  Starting from any envelope that holds nothing under [rel],
    after any sequence [ls] of AddLink calls the relation holds exactly
    the links of [ls] whose relation is [rel], in call order: nothing
    for none, the link itself for one, and for two or more the [[]any]
    of all of them, first added first. *)
Theorem AddLink_never_overwrites (e : Envelope) (ls : list Link) (rel : string) :
  links e !! rel = None →
  links (foldl AddLink e ls) !! rel = stored (filter (λ l, Rel l = rel) ls).
Proof.
  intros Hnone. induction ls as [|l ls IH] using rev_ind; [done|].
  rewrite foldl_snoc, filter_app.
  destruct (decide (Rel l = rel)) as [<-|Hne].
  - rewrite (filter_cons_True _ l) by done. simpl.
    by apply stored_snoc.
  - rewrite (filter_cons_False _ l) by done. simpl. rewrite app_nil_r.
    unfold AddLink. by rewrite addLinkRaw_other.
Qed.

Lemma AddLink_never_overwrites_witness :
  links (foldl AddLink (mkEnvelope None ∅ ∅)
           [Sample.selfLink "/a"; Sample.relLink "next" "/n";
            Sample.selfLink "/b"; Sample.selfLink "/c"]) !! "self"
  = Some (ASlice [ALink (Sample.selfLink "/a"); ALink (Sample.selfLink "/b");
                  ALink (Sample.selfLink "/c")]).
Proof.
  apply (AddLink_never_overwrites (mkEnvelope None ∅ ∅)
           [Sample.selfLink "/a"; Sample.relLink "next" "/n";
            Sample.selfLink "/b"; Sample.selfLink "/c"] "self").
  reflexivity.
Defined.

(** ** Strict and permissive wrapping *)

Section wrap_facts.
Context `{Runtime}.

Lemma Wrap_unfold (i : Instance) (ctx : GoContext) (d : Dyn) :
  Wrap i ctx (Some d) = computeLinks i ctx (mkEnvelope (Some d) ∅ ∅).
Proof. reflexivity. Qed.

Lemma Wrap_no_generator_permissive (i : Instance) (ctx : GoContext) (d : Dyn) :
  lookupGenerator i (TypeOf d) = None → strictMode i = false →
  Wrap i ctx (Some d) = Return (mkEnvelope (Some d) ∅ ∅).
Proof.
  intros Hno Hperm. rewrite Wrap_unfold. unfold computeLinks. simpl.
  by rewrite Hno, Hperm.
Qed.

(** C3.  For a value [d] of type [t] with no generator under [t]:
    in strict mode, a generator under the pointer type [*t] makes Wrap
    panic with the type-mismatch value; with no generator under [*t]
    either, Wrap panics with the missing-generator value when [t] is a
    struct type or a pointer to one, and returns the bare envelope for
    every other type; in permissive mode Wrap always returns the bare
    envelope. *)
Theorem strict_mode_contract (i : Instance) (ctx : GoContext) (d : Dyn) :
  lookupGenerator i (TypeOf d) = None →
  (strictMode i = true →
   is_Some (lookupGenerator i (PointerTo (TypeOf d))) →
   Wrap i ctx (Some d)
   = Panic (StrictPointerMismatch (TypeOf d) (PointerTo (TypeOf d))))
  ∧ (strictMode i = true →
     lookupGenerator i (PointerTo (TypeOf d)) = None →
     (KindOf (TypeOf d) = KStruct ∨ ∃ name, TypeOf d = TPtr (TStruct name)) →
     Wrap i ctx (Some d) = Panic (StrictNoGenerator (TypeOf d)))
  ∧ (strictMode i = true →
     lookupGenerator i (PointerTo (TypeOf d)) = None →
     isStructOrPtrToStruct (TypeOf d) = false →
     Wrap i ctx (Some d) = Return (mkEnvelope (Some d) ∅ ∅))
  ∧ (strictMode i = false →
     Wrap i ctx (Some d) = Return (mkEnvelope (Some d) ∅ ∅)).
Proof.
  intros Hno. rewrite Wrap_unfold. unfold computeLinks. simpl.
  rewrite Hno. repeat split.
  - intros -> [g ->]. done.
  - intros -> -> Hkind.
    assert (isStructOrPtrToStruct (TypeOf d) = true) as ->; [|done].
    unfold isStructOrPtrToStruct.
    destruct Hkind as [->|[name ->]]; done.
  - by intros -> -> ->.
  - intros Hperm. by rewrite Hperm.
Qed.

(** The primitive types are among the types strict mode exempts. *)
Lemma primitive_not_struct (t : GoType) :
  t ∈ [TBool; TInt; TFloat64; TString] → isStructOrPtrToStruct t = false.
Proof.
  intros Hin. repeat (apply elem_of_cons in Hin as [->|Hin]; [done|]).
  by apply elem_of_nil in Hin.
Qed.

End wrap_facts.

Lemma strict_mode_contract_witness :
  let i := RegisterInstance Sample.User Sample.strict Sample.noLinks in
  Wrap i () (Some Sample.userValue)
  = Panic (StrictPointerMismatch Sample.User (TPtr Sample.User))
  ∧ Wrap Sample.strict () (Some Sample.alice)
    = Panic (StrictNoGenerator (TPtr Sample.User))
  ∧ Wrap Sample.strict () (Some Sample.fortyTwo)
    = Return (mkEnvelope (Some Sample.fortyTwo) ∅ ∅)
  ∧ Wrap Sample.permissive () (Some Sample.alice)
    = Return (mkEnvelope (Some Sample.alice) ∅ ∅).
Proof.
  intros i. split; [|split; [|split]].
  - apply (strict_mode_contract i () Sample.userValue); try reflexivity.
    by eexists.
  - apply (strict_mode_contract Sample.strict () Sample.alice);
      try reflexivity.
    right. by eexists.
  - destruct (strict_mode_contract Sample.strict () Sample.fortyTwo eq_refl)
      as (_ & _ & Hexempt & _).
    apply Hexempt; reflexivity.
  - destruct (strict_mode_contract Sample.permissive () Sample.alice eq_refl)
      as (_ & _ & _ & Hperm).
    apply Hperm; reflexivity.
Defined.

(** ** CURIE resolution *)

Section curies_facts.
Context `{Runtime}.

Lemma resolveCuries_step_app (i : Instance) (used : list Link) (rel : string) :
  resolveCuries_step i used rel = used ++ curiesOf i rel.
Proof.
  unfold resolveCuries_step, curiesOf, curiePrefix, curieLink.
  destruct (0 <? IndexByte rel ":")%Z; [|by rewrite app_nil_r].
  destruct (curies i !! _); [done|by rewrite app_nil_r].
Qed.

Lemma resolveCuries_loop (i : Instance) (order : list string) (used : list Link) :
  foldl (resolveCuries_step i) used order = used ++ (order ≫= curiesOf i).
Proof.
  revert used. induction order as [|rel order IH]; intros used; simpl.
  - by rewrite app_nil_r.
  - by rewrite IH, resolveCuries_step_app, app_assoc.
Qed.

Lemma curiesOf_no_table (i : Instance) (rel : string) :
  size (curies i) = 0%nat → curiesOf i rel = [].
Proof.
  intros Hsz%map_size_empty_iff. unfold curiesOf.
  destruct (curiePrefix rel); [|done]. by rewrite Hsz, lookup_empty.
Qed.

Lemma range_order_empty {V} (m : gmap string V) (order : list string) :
  range_order m order → size m = 0%nat → order = [].
Proof.
  unfold range_order. intros Hperm Hsz%map_size_empty_iff. subst m.
  rewrite map_to_list_empty in Hperm. by apply Permutation_nil_r.
Qed.

Lemma range_order_elem {V} (m : gmap string V) (order : list string) (rel : string) :
  range_order m order → rel ∈ order ↔ is_Some (m !! rel).
Proof.
  unfold range_order. intros ->. rewrite list_elem_of_fmap. split.
  - intros [[k v] [-> Hin%elem_of_map_to_list]]. by eexists.
  - intros [v Hv]. exists (rel, v). split; [done|].
    by apply elem_of_map_to_list.
Qed.

(** The early return agrees with the loop: with no CURIE registered
    nothing resolves, and an empty map is ranged over in no step. *)
Lemma resolveCuries_bind (i : Instance) (m : gmap string LinkValue)
    (order : list string) :
  range_order m order → resolveCuries i m order = order ≫= curiesOf i.
Proof.
  intros Hord. unfold resolveCuries.
  destruct (size (curies i) =? 0)%nat eqn:Hc; simpl.
  - apply Nat.eqb_eq in Hc. symmetry. clear Hord.
    induction order as [|rel order IH]; [done|]. simpl.
    rewrite curiesOf_no_table by done. exact IH.
  - destruct (size m =? 0)%nat eqn:Hm.
    + apply Nat.eqb_eq in Hm. by rewrite (range_order_empty m order).
    + by rewrite resolveCuries_loop.
Qed.

Lemma curiesOf_elem (i : Instance) (rel : string) (c : Link) :
  c ∈ curiesOf i rel ↔
  ∃ prefix href, curiePrefix rel = Some prefix
                 ∧ curies i !! prefix = Some href
                 ∧ c = curieLink prefix href.
Proof.
  unfold curiesOf. split.
  - destruct (curiePrefix rel) as [prefix|]; [|by intros ?%elem_of_nil].
    destruct (curies i !! prefix) as [href|] eqn:Hh;
      [|by intros ?%elem_of_nil].
    intros ->%list_elem_of_singleton. by exists prefix, href.
  - intros (prefix & href & -> & -> & ->). by apply list_elem_of_singleton.
Qed.

Lemma curiesOf_cases (i : Instance) (rel : string) :
  (curiesOf i rel = [] ∧ hasCurie i rel = false)
  ∨ (∃ c, curiesOf i rel = [c] ∧ hasCurie i rel = true).
Proof.
  unfold hasCurie, curiesOf.
  destruct (curiePrefix rel) as [prefix|]; [|by left].
  destruct (curies i !! prefix) as [href|]; [|by left].
  right. by eexists.
Qed.

Lemma curiesOf_length (i : Instance) (order : list string) :
  length (order ≫= curiesOf i)
  = length (filter (λ rel, hasCurie i rel = true) order).
Proof.
  induction order as [|rel order IH]; [done|].
  change ((rel :: order) ≫= curiesOf i)
    with (curiesOf i rel ++ (order ≫= curiesOf i)).
  rewrite length_app, IH.
  destruct (curiesOf_cases i rel) as [[-> Hno]|(c & -> & Hyes)].
  - rewrite filter_cons_False; [done|]. by rewrite Hno.
  - by rewrite filter_cons_True.
Qed.

Lemma resolveCuries_elem (i : Instance) (m : gmap string LinkValue)
    (order : list string) (c : Link) :
  range_order m order →
  c ∈ resolveCuries i m order ↔
  ∃ rel prefix href,
    is_Some (m !! rel) ∧ curiePrefix rel = Some prefix
    ∧ curies i !! prefix = Some href ∧ c = curieLink prefix href.
Proof.
  intros Hord. rewrite (resolveCuries_bind i m order Hord).
  rewrite list_elem_of_bind. split.
  - intros (rel & (prefix & href & ?)%curiesOf_elem & Hin).
    exists rel, prefix, href. split; [|done].
    by apply (range_order_elem m order).
  - intros (rel & prefix & href & Hin & Hrest).
    exists rel. split.
    + apply curiesOf_elem. by exists prefix, href.
    + by apply (range_order_elem m order).
Qed.

Lemma resolveCuries_length (i : Instance) (m : gmap string LinkValue)
    (order : list string) :
  range_order m order →
  length (resolveCuries i m order)
  = length (filter (λ rel, hasCurie i rel = true) (map_to_list m).*1).
Proof.
  intros Hord. rewrite (resolveCuries_bind i m order Hord).
  rewrite curiesOf_length. apply Permutation_length.
  unfold range_order in Hord. by rewrite Hord.
Qed.

Lemma curiesOf_named (i : Instance) (order : list string) (prefix : string) :
  is_Some (curies i !! prefix) →
  length (filter (λ c, Name c = prefix) (order ≫= curiesOf i))
  = length (filter (λ rel, curiePrefix rel = Some prefix) order).
Proof.
  intros [href Hreg]. induction order as [|rel order IH]; [done|].
  change ((rel :: order) ≫= curiesOf i)
    with (curiesOf i rel ++ (order ≫= curiesOf i)).
  rewrite filter_app, length_app, IH. unfold curiesOf.
  destruct (curiePrefix rel) as [q|] eqn:Hq.
  - destruct (decide (q = prefix)) as [->|Hne].
    + rewrite Hreg, (filter_cons_True (λ r, curiePrefix r = _)) by done.
      by rewrite filter_cons_True.
    + rewrite (filter_cons_False (λ r, curiePrefix r = _)) by congruence.
      destruct (curies i !! q); [|done].
      by rewrite filter_cons_False.
  - by rewrite (filter_cons_False (λ r, curiePrefix r = _)) by congruence.
Qed.

(** C4, as the code has it.  Whatever the order of the range, the
    result holds a link exactly for the prefixes that are registered and
    precede the first colon (not at index 0) of some relation name of
    the map, each with name = prefix, target = the registered template
    and the template flag set; it holds one entry per relation name
    with a registered prefix; and a registered prefix is emitted once
    for each relation name that carries it, [k] times when [k] relation
    names share it. *)
Theorem resolveCuries_per_relation (i : Instance) (m : gmap string LinkValue)
    (order : list string) :
  range_order m order →
  (∀ c, c ∈ resolveCuries i m order ↔
        ∃ rel prefix href,
          is_Some (m !! rel) ∧ curiePrefix rel = Some prefix
          ∧ curies i !! prefix = Some href ∧ c = curieLink prefix href)
  ∧ length (resolveCuries i m order)
    = length (filter (λ rel, hasCurie i rel = true) (map_to_list m).*1)
  ∧ (∀ prefix, is_Some (curies i !! prefix) →
       length (filter (λ c, Name c = prefix) (resolveCuries i m order))
       = length (filter (λ rel, curiePrefix rel = Some prefix)
                   (map_to_list m).*1)).
Proof.
  intros Hord. split; [|split].
  - intros c. by apply resolveCuries_elem.
  - by apply resolveCuries_length.
  - intros prefix Hreg. rewrite (resolveCuries_bind i m order Hord).
    rewrite curiesOf_named by done. apply Permutation_length.
    unfold range_order in Hord. by rewrite Hord.
Qed.

End curies_facts.

(** Two relation names under one registered prefix: the prefix is
    emitted twice. *)
Lemma resolveCuries_shared_prefix_twice :
  range_order (links Sample.twoAcme) ["acme:a"; "acme:b"]
  ∧ resolveCuries Sample.withCuries (links Sample.twoAcme) ["acme:a"; "acme:b"]
    = [curieLink "acme" "https://docs/{rel}";
       curieLink "acme" "https://docs/{rel}"].
Proof. split; [solve_range_order|reflexivity]. Qed.

Lemma resolveCuries_per_relation_witness :
  length (resolveCuries Sample.withCuries (links Sample.twoAcme)
            ["acme:b"; "acme:a"]) = 2%nat
  ∧ length (filter (λ c, Name c = "acme")
              (resolveCuries Sample.withCuries (links Sample.twoAcme)
                 ["acme:b"; "acme:a"])) = 2%nat.
Proof.
  destruct (resolveCuries_per_relation Sample.withCuries
              (links Sample.twoAcme) ["acme:b"; "acme:a"])
    as (_ & Hlen & Hnamed); [solve_range_order|].
  split; [exact Hlen|].
  apply (Hnamed "acme"). by eexists.
Defined.

(** ** The encoder: classification and the combine step *)

Section marshal_facts.
Context `{Runtime}.

Lemma checkJSONStructure_null (b : bytes) :
  b = [] ∨ b = B "null" → checkJSONStructure b = Ok (true, false).
Proof. by intros [->| ->]. Qed.

Lemma checkJSONStructure_object (b : bytes) :
  b !! 0%nat = Some "{"%byte →
  checkJSONStructure b = Ok (false, bool_decide (b = B "{}")).
Proof.
  intros Hhd. unfold checkJSONStructure.
  destruct b as [|c b]; [done|]. simpl in Hhd. injection Hhd as ->.
  rewrite (bool_decide_eq_false_2 (_ = B "null")) by done. simpl.
  destruct b as [|c [|c' b]]; [reflexivity| |].
  - simpl. destruct (decide (c = "}"%byte)) as [->|Hc]; [reflexivity|].
    rewrite (bool_decide_eq_false_2 (Some c = _)) by congruence.
    rewrite (bool_decide_eq_false_2 (_ = B "{}")); [done|].
    intros Heq. apply Hc. by injection Heq.
  - simpl. by rewrite (bool_decide_eq_false_2 (_ = B "{}")).
Qed.

Lemma checkJSONStructure_non_object (b : bytes) :
  b ≠ [] → b ≠ B "null" → b !! 0%nat ≠ Some "{"%byte →
  checkJSONStructure b = Err errNotObject.
Proof.
  intros Hne Hnull Hhd. unfold checkJSONStructure.
  destruct b as [|c b]; [done|]. simpl.
  rewrite (bool_decide_eq_false_2 _ Hnull). simpl.
  by rewrite (bool_decide_eq_false_2 _ Hhd).
Qed.

(** What the two flags say about the bytes. *)
Lemma checkJSONStructure_flags (b : bytes) (isNull isEmpty : bool) :
  checkJSONStructure b = Ok (isNull, isEmpty) →
  (isNull = true ↔ b = [] ∨ b = B "null")
  ∧ (isEmpty = true ↔ b = B "{}")
  ∧ (isNull = false → b !! 0%nat = Some "{"%byte).
Proof.
  intros Hchk.
  destruct (decide (b = [] ∨ b = B "null")) as [Hnull|Hnn].
  - rewrite (checkJSONStructure_null b Hnull) in Hchk. simplify_eq.
    split; [done|]. split; [|done].
    split; [done|]. intros ->. by destruct Hnull.
  - destruct (decide (b !! 0%nat = Some "{"%byte)) as [Hhd|Hhd].
    + rewrite (checkJSONStructure_object b Hhd) in Hchk. simplify_eq.
      split; [split; [done|tauto]|]. split; [|done].
      apply bool_decide_eq_true.
    + rewrite checkJSONStructure_non_object in Hchk; [done|tauto|tauto|done].
Qed.

(** MarshalJSON is the composition of its four steps. *)
Lemma MarshalJSON_steps (i : Instance) (e e' : Envelope) (order : list string)
    (data meta : bytes) (isNull isEmpty : bool) :
  marshalData e = Ok data →
  checkJSONStructure data = Ok (isNull, isEmpty) →
  marshalMeta i e order = (Ok meta, e') →
  MarshalJSON i e order =
    (match spliceJSON data meta isNull isEmpty with
     | Return out => Return (Ok out)
     | Panic p => Panic p
     end, e').
Proof.
  intros Hd Hc Hm. unfold MarshalJSON. rewrite Hd, Hc, Hm.
  by destruct (spliceJSON _ _ _ _).
Qed.

Lemma marshalData_nil (e : Envelope) : Data e = None → marshalData e = Ok [].
Proof. unfold marshalData. by intros ->. Qed.


(** The data-shape error of the refactored encoder: bytes that are
    neither null nor begin with a brace fail the encode step before the
    registry is consulted, and the envelope is left as it was. *)
Lemma MarshalJSON_non_object_fails (i : Instance) (e : Envelope)
    (order : list string) (b : bytes) :
  marshalData e = Ok b →
  b ≠ [] → b ≠ B "null" → b !! 0%nat ≠ Some "{"%byte →
  MarshalJSON i e order = (Return (Err errNotObject), e).
Proof.
  intros Hd Hne Hnull Hhd. unfold MarshalJSON.
  by rewrite Hd, checkJSONStructure_non_object.
Qed.

End marshal_facts.


(** The refactored encoder rejects [42], the value of the package's
    own test. *)
Lemma MarshalJSON_non_object_fails_witness :
  MarshalJSON Sample.permissive (mkEnvelope (Some Sample.fortyTwo) ∅ ∅) []
  = (Return (Err errNotObject), mkEnvelope (Some Sample.fortyTwo) ∅ ∅).
Proof.
  apply (MarshalJSON_non_object_fails Sample.permissive
           (mkEnvelope (Some Sample.fortyTwo) ∅ ∅) [] (B "42"));
    [reflexivity|done|done|done].
Defined.

(** C5, where the earlier encoder departs from it.  [Wrap(ctx, 7)]: the
    record serializes to the single byte [7], the shape check is skipped
    because it is guarded by [len(dataBytes) >= 2], and the call returns
    the bytes [7] and no error. *)
Theorem Inline_single_byte_not_rejected :
  Wrap Sample.permissive () (Some Sample.seven)
  = Return (mkEnvelope (Some Sample.seven) ∅ ∅)
  ∧ Inline.MarshalJSON Sample.permissive
      (mkEnvelope (Some Sample.seven) ∅ ∅) []
    = (Return (Ok (B "7")), mkEnvelope (Some Sample.seven) ∅ ∅)
  ∧ MarshalJSON Sample.permissive (mkEnvelope (Some Sample.seven) ∅ ∅) []
    = (Return (Err errNotObject), mkEnvelope (Some Sample.seven) ∅ ∅).
Proof. split; [reflexivity|]. split; reflexivity. Qed.

(** ** A record with no generator, in permissive mode *)

Section passthrough.
Context `{Runtime}.

Lemma resolveCuries_no_links (i : Instance) (order : list string) :
  resolveCuries i ∅ order = [].
Proof.
  unfold resolveCuries. rewrite map_size_empty. simpl.
  by rewrite orb_true_r.
Qed.

Lemma buildMeta_bare (data : option Dyn) :
  buildMeta (mkEnvelope data ∅ ∅) = ∅.
Proof. reflexivity. Qed.

Lemma marshalMeta_bare (i : Instance) (data : option Dyn) (order : list string) :
  marshalMeta i (mkEnvelope data ∅ ∅) order = (Ok [], mkEnvelope data ∅ ∅).
Proof.
  unfold marshalMeta, injectCuries. simpl.
  by rewrite resolveCuries_no_links.
Qed.

Lemma Inline_bare_object (i : Instance) (d : Dyn) (b : bytes)
    (order : list string) :
  jsonMarshal d = Ok b → TrimSpace b = b → b !! 0%nat = Some "{"%byte →
  Inline.MarshalJSON i (mkEnvelope (Some d) ∅ ∅) order
  = (Return (Ok b), mkEnvelope (Some d) ∅ ∅).
Proof.
  intros Hjs Htrim Hhd. unfold Inline.MarshalJSON. simpl.
  rewrite Hjs, Htrim.
  assert ((length b =? 0)%nat || bool_decide (b = B "null") = false) as ->.
  { destruct b as [|c b]; [done|]. simpl in *. simplify_eq.
    by apply bool_decide_eq_false_2. }
  simpl. rewrite (bool_decide_eq_true_2 _ Hhd).
  unfold injectCuries. simpl. rewrite resolveCuries_no_links. simpl.
  rewrite buildMeta_bare, map_size_empty.
  by destruct (length b) as [|[|n]].
Qed.

(** C7, as the code has it.  In permissive mode, for a record with no
    generator whose own encoding [b] is a JSON object (it begins with a
    brace) with no surrounding white space, Wrap returns the bare
    envelope, and encoding it, with either encoder, returns exactly
    [b] and leaves the envelope as it was. *)
Theorem permissive_passthrough (i : Instance) (ctx : GoContext) (d : Dyn)
    (b : bytes) (order : list string) :
  strictMode i = false →
  lookupGenerator i (TypeOf d) = None →
  jsonMarshal d = Ok b →
  TrimSpace b = b →
  b !! 0%nat = Some "{"%byte →
  Wrap i ctx (Some d) = Return (mkEnvelope (Some d) ∅ ∅)
  ∧ MarshalJSON i (mkEnvelope (Some d) ∅ ∅) order
    = (Return (Ok b), mkEnvelope (Some d) ∅ ∅)
  ∧ Inline.MarshalJSON i (mkEnvelope (Some d) ∅ ∅) order
    = (Return (Ok b), mkEnvelope (Some d) ∅ ∅).
Proof.
  intros Hperm Hno Hjs Htrim Hhd. split; [|split].
  - by apply Wrap_no_generator_permissive.
  - rewrite (MarshalJSON_steps i _ (mkEnvelope (Some d) ∅ ∅) order b []
               false (bool_decide (b = B "{}"))).
    + done.
    + unfold marshalData. simpl. by rewrite Hjs, Htrim.
    + by apply checkJSONStructure_object.
    + apply marshalMeta_bare.
  - by apply Inline_bare_object.
Qed.

End passthrough.

Lemma permissive_passthrough_witness :
  Wrap Sample.permissive () (Some Sample.alice)
  = Return (mkEnvelope (Some Sample.alice) ∅ ∅)
  ∧ MarshalJSON Sample.permissive (mkEnvelope (Some Sample.alice) ∅ ∅) []
    = (Return (Ok Sample.aliceJSON), mkEnvelope (Some Sample.alice) ∅ ∅)
  ∧ Inline.MarshalJSON Sample.permissive
      (mkEnvelope (Some Sample.alice) ∅ ∅) []
    = (Return (Ok Sample.aliceJSON), mkEnvelope (Some Sample.alice) ∅ ∅).
Proof.
  apply (permissive_passthrough Sample.permissive () Sample.alice
           Sample.aliceJSON []); reflexivity.
Defined.

(** The record [42] has no generator and the registry is permissive;
    its own encoding is the bytes [42], and encoding its envelope is an
    error. *)
Lemma passthrough_fails_on_number :
  strictMode Sample.permissive = false
  ∧ lookupGenerator Sample.permissive (TypeOf Sample.fortyTwo) = None
  ∧ jsonMarshal Sample.fortyTwo = Ok (B "42")
  ∧ Wrap Sample.permissive () (Some Sample.fortyTwo)
    = Return (mkEnvelope (Some Sample.fortyTwo) ∅ ∅)
  ∧ MarshalJSON Sample.permissive (mkEnvelope (Some Sample.fortyTwo) ∅ ∅) []
    = (Return (Err errNotObject), mkEnvelope (Some Sample.fortyTwo) ∅ ∅)
  ∧ Inline.MarshalJSON Sample.permissive
      (mkEnvelope (Some Sample.fortyTwo) ∅ ∅) []
    = (Return (Err errNotObject), mkEnvelope (Some Sample.fortyTwo) ∅ ∅).
Proof. repeat split. Qed.

(** ** The collection wrapper *)

Section collection_facts.
Context `{Runtime}.

Lemma Wrap_permissive (i : Instance) (ctx : GoContext) (item : option Dyn) :
  strictMode i = false → ∃ env, Wrap i ctx item = Return env.
Proof.
  intros Hperm. unfold Wrap, computeLinks. simpl.
  destruct item as [d|]; [|by eexists].
  destruct (lookupGenerator i (TypeOf d)); [by eexists|].
  rewrite Hperm. by eexists.
Qed.

(** When the loop returns, it returns one envelope per item, the
    [k]-th being what Wrap returns for the [k]-th item. *)
Lemma wrapItems_Forall2 (i : Instance) (ctx : GoContext)
    (items : list (option Dyn)) (envs : list Envelope) :
  wrapItems i ctx items = Return envs →
  Forall2 (λ item env, Wrap i ctx item = Return env) items envs.
Proof.
  revert envs. induction items as [|item items IH]; intros envs; simpl.
  - intros [= <-]. constructor.
  - destruct (Wrap i ctx item) as [env|p] eqn:Hw; [|done].
    destruct (wrapItems i ctx items) as [envs'|p]; [|done].
    intros [= <-]. constructor; [done|]. by apply IH.
Qed.

Lemma wrapItems_permissive (i : Instance) (ctx : GoContext)
    (items : list (option Dyn)) :
  strictMode i = false → ∃ envs, wrapItems i ctx items = Return envs.
Proof.
  intros Hperm. induction items as [|item items [envs IH]]; simpl.
  - by eexists.
  - destruct (Wrap_permissive i ctx item Hperm) as [env ->].
    rewrite IH. by eexists.
Qed.

Lemma wrapItems_panics (i : Instance) (ctx : GoContext)
    (items : list (option Dyn)) (item : option Dyn) (p : PanicValue) :
  item ∈ items → Wrap i ctx item = Panic p →
  ∃ p', wrapItems i ctx items = Panic p'.
Proof.
  intros Hin Hp. induction items as [|x items IH]; [by apply elem_of_nil in Hin|].
  simpl. apply elem_of_cons in Hin as [<-|Hin].
  - rewrite Hp. by eexists.
  - destruct (Wrap i ctx x); [|by eexists].
    destruct (IH Hin) as [p' ->]. by eexists.
Qed.

Lemma Collection_slice (i : Instance) (ctx : GoContext) (items : option Dyn)
    (total : Z) (selfLink : Link) :
  ValueKind items = KSlice →
  Collection i ctx items total selfLink =
    match wrapItems i ctx (from_option elemsOf [] items) with
    | Panic p => Panic p
    | Return envs =>
        Return (mkCollectionPage (<["self" := ALink selfLink]> ∅)
                  (<["items" := envs]> ∅)
                  (Z.of_nat (length (from_option elemsOf [] items))) total)
    end.
Proof. intros Hk. unfold Collection. by rewrite Hk. Qed.

(** C6, as the code has it.  A non-slice input panics.  For a slice of
    [N] items, whenever Collection returns, the page has count [N], the
    caller's total, and under ["items"] one envelope per item in input
    order, each what Wrap returns for that item; Collection does
    return for every slice when the registry is permissive; and it
    panics when wrapping one of the items panics. *)
Theorem Collection_page (i : Instance) (ctx : GoContext) (items : option Dyn)
    (total : Z) (selfLink : Link) :
  (ValueKind items ≠ KSlice →
   Collection i ctx items total selfLink = Panic CollectionNotSlice)
  ∧ (ValueKind items = KSlice →
     ∀ page, Collection i ctx items total selfLink = Return page →
       Count page = Z.of_nat (length (from_option elemsOf [] items))
       ∧ Total page = total
       ∧ ∃ envs, Embedded page = <["items" := envs]> ∅
                 ∧ length envs = length (from_option elemsOf [] items)
                 ∧ Forall2 (λ item env, Wrap i ctx item = Return env)
                     (from_option elemsOf [] items) envs)
  ∧ (ValueKind items = KSlice → strictMode i = false →
     ∃ page, Collection i ctx items total selfLink = Return page)
  ∧ (ValueKind items = KSlice →
     ∀ item p, item ∈ from_option elemsOf [] items →
               Wrap i ctx item = Panic p →
               ∃ p', Collection i ctx items total selfLink = Panic p').
Proof.
  split; [|split; [|split]].
  - intros Hk. unfold Collection. by rewrite bool_decide_eq_false_2.
  - intros Hk page. rewrite (Collection_slice _ _ _ _ _ Hk).
    destruct (wrapItems i ctx _) as [envs|p] eqn:Hw; [|done].
    intros [= <-]. simpl. split; [done|]. split; [done|].
    exists envs. split; [done|].
    apply wrapItems_Forall2 in Hw. split; [|done].
    symmetry. by eapply Forall2_length.
  - intros Hk Hperm. rewrite (Collection_slice _ _ _ _ _ Hk).
    destruct (wrapItems_permissive i ctx (from_option elemsOf [] items) Hperm)
      as [envs ->].
    by eexists.
  - intros Hk item p Hin Hp. rewrite (Collection_slice _ _ _ _ _ Hk).
    destruct (wrapItems_panics i ctx _ item p Hin Hp) as [p' ->].
    by eexists.
Qed.

(** C9.  Whenever Collection returns, the page's link map holds the
    caller's link under ["self"] and nothing under any other relation,
    whatever the link's own [Rel]. *)
Theorem Collection_self_key (i : Instance) (ctx : GoContext)
    (items : option Dyn) (total : Z) (selfLink : Link) (page : CollectionPage) :
  Collection i ctx items total selfLink = Return page →
  Links page !! "self" = Some (ALink selfLink)
  ∧ ∀ rel, rel ≠ "self" → Links page !! rel = None.
Proof.
  unfold Collection. case_bool_decide; [|done]. simpl.
  destruct (wrapItems i ctx _); [|done]. intros [= <-]. simpl. split.
  - by rewrite lookup_insert_eq.
  - intros rel Hne. by rewrite lookup_insert_ne.
Qed.

End collection_facts.

Lemma Collection_page_witness :
  Collection Sample.permissive () (Some Sample.fortyTwo) 0
    (Sample.selfLink "/users") = Panic CollectionNotSlice
  ∧ (Count Sample.usersPage = 2%Z ∧ Total Sample.usersPage = 7%Z)
  ∧ ∃ page, Collection Sample.permissive () (Some Sample.users) 7
              (Sample.relLink "next" "/next") = Return page.
Proof.
  split; [|split].
  - by apply (Collection_page Sample.permissive () (Some Sample.fortyTwo)).
  - destruct (Collection_page Sample.permissive () (Some Sample.users) 7
                (Sample.relLink "next" "/next")) as (_ & Hret & _).
    destruct (Hret eq_refl Sample.usersPage eq_refl) as (Hc & Ht & _).
    by split.
  - by apply (Collection_page Sample.permissive () (Some Sample.users)).
Defined.

(** Under a strict registry with no generator for [*User], Collection
    over a slice of users does not return: wrapping the first item
    panics. *)
Lemma Collection_strict_panics :
  ValueKind (Some Sample.users) = KSlice
  ∧ Collection Sample.strict () (Some Sample.users) 2
      (Sample.selfLink "/users")
    = Panic (StrictNoGenerator (TPtr Sample.User)).
Proof. split; reflexivity. Qed.

Lemma Collection_self_key_witness :
  Links Sample.usersPage !! "self" = Some (ALink (Sample.relLink "next" "/next"))
  ∧ ∀ rel, rel ≠ "self" → Links Sample.usersPage !! rel = None.
Proof.
  apply (Collection_self_key Sample.permissive () (Some Sample.users) 7
           (Sample.relLink "next" "/next") Sample.usersPage).
  reflexivity.
Defined.

(** ** Lengths of the encoded metadata *)

Section json_facts.
Context `{Runtime}.

Lemma joinComma_length (items : list bytes) :
  length (joinComma items) = pred (sum_list_with (λ x, S (length x)) items).
Proof.
  induction items as [|x [|y items] IH]; [done|simpl; lia|].
  change (joinComma (x :: y :: items))
    with (x ++ B "," ++ joinComma (y :: items)).
  rewrite !length_app, IH. simpl. lia.
Qed.


Lemma sum_list_with_fmap {A B} (f : B → nat) (g : A → B) (l : list A) :
  sum_list_with f (g <$> l) = sum_list_with (f ∘ g) l.
Proof. induction l as [|x l IH]; [done|]. simpl. by f_equal. Qed.

(** The length of an encoded object does not depend on the order of
    its members. *)
Lemma jsonObject_length {V} (enc : V → bytes) (m : gmap string V) :
  length (jsonObject enc m)
  = 2 + pred (sum_list_with (λ kv, S (length (jsonMember enc kv)))
                (map_to_list m)).
Proof.
  unfold jsonObject. rewrite !length_app, joinComma_length.
  rewrite sum_list_with_fmap, merge_sort_Permutation. unfold compose.
  simpl. lia.
Qed.

Lemma jsonObject_length_ge {V} (enc : V → bytes) (m : gmap string V) :
  2 ≤ length (jsonObject enc m).
Proof. rewrite jsonObject_length. lia. Qed.




End json_facts.

(** ** Encoding twice, and encoding under two range orders *)

Section encode_facts.
Context `{Runtime}.

Lemma resolveCuries_Permutation (i : Instance) (m : gmap string LinkValue)
    (order1 order2 : list string) :
  range_order m order1 → range_order m order2 →
  resolveCuries i m order1 ≡ₚ resolveCuries i m order2.
Proof.
  intros H1 H2. rewrite !resolveCuries_bind by done.
  unfold range_order in *. by rewrite H1, H2.
Qed.

Lemma Permutation_short {A} (l1 l2 : list A) :
  l1 ≡ₚ l2 → length l1 ≤ 1 → l1 = l2.
Proof.
  intros Hp Hlen. destruct l1 as [|x [|y l1]]; simpl in Hlen; [| |lia].
  - by apply Permutation_nil_l in Hp.
  - by apply Permutation_singleton_l in Hp.
Qed.

(** The encoders look at the range order only through the curies it
    resolves. *)
Lemma MarshalJSON_same_curies (i : Instance) (e : Envelope)
    (order1 order2 : list string) :
  resolveCuries i (links e) order1 = resolveCuries i (links e) order2 →
  MarshalJSON i e order1 = MarshalJSON i e order2
  ∧ Inline.MarshalJSON i e order1 = Inline.MarshalJSON i e order2.
Proof.
  intros Heq.
  unfold MarshalJSON, Inline.MarshalJSON, marshalMeta, injectCuries.
  by rewrite Heq.
Qed.

(** C8, as the code has it.  Two encode runs over the same envelope and
    registry differ at most in the order in which the runtime ranges
    over the link map: the curies they resolve are the same up to order,
    and the runs return the same bytes and leave the same envelope
    whenever they resolve the same list, in particular whenever at most
    one curies entry is resolved. *)
Theorem encode_deterministic_up_to_curies_order (i : Instance) (e : Envelope)
    (order1 order2 : list string) :
  range_order (links e) order1 → range_order (links e) order2 →
  resolveCuries i (links e) order1 ≡ₚ resolveCuries i (links e) order2
  ∧ (resolveCuries i (links e) order1 = resolveCuries i (links e) order2 →
     MarshalJSON i e order1 = MarshalJSON i e order2)
  ∧ (length (resolveCuries i (links e) order1) ≤ 1 →
     MarshalJSON i e order1 = MarshalJSON i e order2).
Proof.
  intros H1 H2.
  pose proof (resolveCuries_Permutation i (links e) order1 order2 H1 H2) as Hp.
  split; [done|]. split.
  - intros Heq. by apply MarshalJSON_same_curies.
  - intros Hlen. apply MarshalJSON_same_curies. by apply Permutation_short.
Qed.


Lemma addLinkRaw_links (e : Envelope) (rel : string) (val : LinkValue) :
  links (addLinkRaw e rel val)
  = <[rel := match links e !! rel with
             | Some (ASlice xs) => ASlice (xs ++ [val])
             | Some v => ASlice [v; val]
             | None => val
             end]> (links e).
Proof. unfold addLinkRaw. by destruct (links e !! rel) as [[]|]. Qed.

Lemma addLinkRaw_is_Some (e : Envelope) (rel : string) (val : LinkValue) :
  is_Some (links (addLinkRaw e rel val) !! rel).
Proof. rewrite addLinkRaw_links, lookup_insert_eq. by eexists. Qed.






End encode_facts.

Section reencode.
Context `{Runtime}.






End reencode.

(** Two runs over one envelope and one registry, with two CURIE
    prefixes in use: the runtime may range over the two relations in
    either order, and the bytes differ. *)
Lemma encode_depends_on_range_order :
  range_order (links Sample.acmeDoc) ["acme:a"; "doc:b"]
  ∧ range_order (links Sample.acmeDoc) ["doc:b"; "acme:a"]
  ∧ ∃ out1 out2,
      (MarshalJSON Sample.withCuries Sample.acmeDoc ["acme:a"; "doc:b"]).1
      = Return (Ok out1)
      ∧ (MarshalJSON Sample.withCuries Sample.acmeDoc ["doc:b"; "acme:a"]).1
        = Return (Ok out2)
      ∧ out1 ≠ out2.
Proof.
  split; [solve_range_order|]. split; [solve_range_order|].
  eexists. eexists. split; [vm_compute; reflexivity|].
  split; [vm_compute; reflexivity|]. discriminate.
Qed.

Lemma encode_deterministic_up_to_curies_order_witness :
  MarshalJSON Sample.withCuries Sample.acmeSelf ["acme:a"; "self"]
  = MarshalJSON Sample.withCuries Sample.acmeSelf ["self"; "acme:a"].
Proof.
  apply (encode_deterministic_up_to_curies_order Sample.withCuries
           Sample.acmeSelf ["acme:a"; "self"] ["self"; "acme:a"]).
  - solve_range_order.
  - solve_range_order.
  - vm_compute. lia.
Defined.


(** ** The two encoders compared *)

Section inline_facts.
Context `{Runtime}.

(** The refactored encoder with its helper calls unfolded, in the shape
    of the earlier one. *)
Lemma MarshalJSON_unfolded (i : Instance) (e : Envelope) (order : list string) :
  MarshalJSON i e order =
    match marshalData e with
    | Err err => (Return (Err err), e)
    | Ok dataBytes =>
        match checkJSONStructure dataBytes with
        | Err err => (Return (Err err), e)
        | Ok (isDataNull, isDataEmptyObj) =>
            let e' := injectCuries i e order in
            let meta := buildMeta e' in
            if (size meta =? 0)%nat then
              if isDataNull then (Return (Ok (B "{}")), e')
              else (Return (Ok dataBytes), e')
            else
              let metaBytes := jsonObject (jsonObject jsonValue) meta in
              if isDataNull || isDataEmptyObj then (Return (Ok metaBytes), e')
              else if (length dataBytes =? 0)%nat then (Panic SliceBounds, e')
              else (Return (Ok (take (length dataBytes - 1) dataBytes
                                  ++ B "," ++ drop 1 metaBytes)), e')
        end
    end.
Proof.
  unfold MarshalJSON, marshalMeta.
  destruct (marshalData e) as [data|err]; [|done].
  destruct (checkJSONStructure data) as [[isNull isEmpty]|err]; [|done].
  cbv zeta.
  pose proof (jsonObject_length_ge (jsonObject jsonValue)
                (buildMeta (injectCuries i e order))) as Hlen.
  set (e' := injectCuries i e order) in *.
  set (mb := jsonObject (jsonObject jsonValue) (buildMeta e')) in *.
  clearbody mb.
  destruct (size (buildMeta e') =? 0)%nat; unfold spliceJSON.
  - simpl. by destruct isNull.
  - destruct mb as [|c mb]; [simpl in Hlen; lia|].
    simpl. destruct (isNull || isEmpty); [done|].
    by destruct (length data =? 0)%nat.
Qed.

(** The earlier encoder returns what the refactored one returns whenever
    the record's trimmed bytes are not a single byte and, after the
    opening brace, trim to a closing brace only when they are ["{}"]. *)
Lemma Inline_agrees (i : Instance) (e : Envelope) (order : list string) :
  TrimSpace [] = [] →
  (∀ d raw, Data e = Some d → jsonMarshal d = Ok raw →
            length (TrimSpace raw) ≠ 1%nat
            ∧ (TrimSpace (drop 1 (TrimSpace raw)) = B "}"
               ↔ TrimSpace raw = B "{}")) →
  Inline.MarshalJSON i e order = MarshalJSON i e order.
Proof.
  intros Hnil Hshape. rewrite MarshalJSON_unfolded.
  unfold Inline.MarshalJSON, marshalData.
  destruct (Data e) as [d|] eqn:HD.
  - destruct (jsonMarshal d) as [raw|err] eqn:Hjs; [|done].
    destruct (Hshape d raw eq_refl Hjs) as [Hlen Hrest].
    set (data := TrimSpace raw) in *.
    destruct (decide (data = [] ∨ data = B "null")) as [Hn|Hnn].
    + rewrite (checkJSONStructure_null data Hn).
      by destruct Hn as [-> | ->].
    + assert ((length data =? 0)%nat || bool_decide (data = B "null") = false)
        as Hnull.
      { apply orb_false_iff. split.
        - apply Nat.eqb_neq. destruct data; [tauto|done].
        - apply bool_decide_eq_false_2. tauto. }
      rewrite Hnull. cbn [negb andb orb].
      assert ((2 <=? length data)%nat = true) as ->.
      { apply Nat.leb_le. destruct data as [|c [|c' data]]; simpl in *;
          [tauto|lia|lia]. }
      destruct (decide (data !! 0%nat = Some "{"%byte)) as [Hhd|Hhd].
      * rewrite (bool_decide_eq_true_2 _ Hhd).
        rewrite (checkJSONStructure_object data Hhd).
        assert ((length (TrimSpace (drop 1 data)) =? 1)%nat
                && bool_decide (TrimSpace (drop 1 data) !! 0%nat
                                = Some "}"%byte)
                = bool_decide (data = B "{}")) as ->; [|done].
        destruct (decide (data = B "{}")) as [Heq|Hneq].
        -- rewrite (bool_decide_eq_true_2 _ Heq).
           apply Hrest in Heq. by rewrite Heq.
        -- rewrite (bool_decide_eq_false_2 _ Hneq).
           destruct (TrimSpace (drop 1 data)) as [|c [|c' rest]] eqn:Ht;
             [done| |done].
           simpl. apply bool_decide_eq_false_2. intros [= ->].
           apply Hneq. by apply Hrest.
      * rewrite (bool_decide_eq_false_2 _ Hhd).
        rewrite checkJSONStructure_non_object; [done|tauto|tauto|done].
  - rewrite Hnil. reflexivity.
Qed.

End inline_facts.

(** ** The bounds of the combine step, and the package's own examples *)

Section sanity.
Context `{Runtime}.

(** The slice expression [data[:len(data)-1]] of the combine step is
    always in range: bytes that are not null are not empty. *)
Lemma MarshalJSON_no_panic (i : Instance) (e : Envelope) (order : list string) :
  ∃ r e', MarshalJSON i e order = (Return r, e').
Proof.
  rewrite MarshalJSON_unfolded.
  destruct (marshalData e) as [data|err]; [|by eexists _, _].
  destruct (checkJSONStructure data) as [[isNull isEmpty]|err] eqn:Hc;
    [|by eexists _, _].
  cbv zeta. destruct (size _ =? 0)%nat.
  - destruct isNull; by eexists _, _.
  - destruct isNull; simpl; [by eexists _, _|].
    destruct isEmpty; simpl; [by eexists _, _|].
    destruct (checkJSONStructure_flags data false false Hc) as (_ & _ & Hhd).
    destruct data as [|c data]; [by specialize (Hhd eq_refl)|].
    by eexists _, _.
Qed.

End sanity.

(** TestMarshal_EmptyStruct: a record that serializes to ["{}"] with
    one generated link encodes to the metadata alone. *)
Example empty_struct_example :
  let i : @Instance asciiRuntime :=
    RegisterInstance (TStruct "Empty") (New [])
      (λ _ _, [Sample.selfLink "/empty"]) in
  let d := mkDyn (TPtr (TStruct "Empty")) (Ok (B "{}")) [] in
  ∃ e e',
    Wrap i () (Some d) = Return e
    ∧ MarshalJSON i e ["self"]
      = (Return (Ok (B "{" ++ plainQuote "_links" ++ B ":{"
                       ++ plainQuote "self" ++ B ":{" ++ plainQuote "href"
                       ++ B ":" ++ plainQuote "/empty" ++ B "}}}")), e').
Proof. intros i d. eexists _, _. split; reflexivity. Qed.

(** The auto-injection test: one link under [acme:test] and the
    prefix [acme] registered leave one curies entry named [acme] in the
    envelope after encoding. *)
Example auto_injection_example :
  let i : @Instance asciiRuntime :=
    RegisterInstance Sample.User (RegisterCurie (New []) "acme" "https://docs/{rel}")
      (λ _ _, [Sample.relLink "acme:test" "/x"]) in
  ∃ e out e',
    Wrap i () (Some Sample.alice) = Return e
    ∧ MarshalJSON i e ["acme:test"] = (Return (Ok out), e')
    ∧ links e' !! "curies"
      = Some (ALinks [curieLink "acme" "https://docs/{rel}"]).
Proof.
  intros i. eexists _, _, _. split; [reflexivity|].
  split; [vm_compute; reflexivity|reflexivity].
Qed.

(** * Further properties of the package *)

Set Warnings "-clear-no-such-hyp".

(** ** The registry *)

Section registry_facts.
Context `{Runtime}.

Lemma PointerTo_neq (t : GoType) : PointerTo t ≠ t.
Proof.
  unfold PointerTo. induction t; try discriminate.
  intros [= Heq]. by apply IHt.
Qed.

(** Registering a generator for [T] makes it the generator found under
    [*T], whatever was registered there before; the lookup under every
    other type, in particular under [T] itself, the CURIE table and the
    mode are as they were. *)
Theorem RegisterInstance_lookup (T : GoType) (i : Instance) (gen gen' : Generator) :
  lookupGenerator (RegisterInstance T i gen) (PointerTo T) = Some gen
  ∧ lookupGenerator (RegisterInstance T (RegisterInstance T i gen') gen)
      (PointerTo T) = Some gen
  ∧ lookupGenerator (RegisterInstance T i gen) T = lookupGenerator i T
  ∧ (∀ t, t ≠ PointerTo T →
          lookupGenerator (RegisterInstance T i gen) t = lookupGenerator i t)
  ∧ curies (RegisterInstance T i gen) = curies i
  ∧ strictMode (RegisterInstance T i gen) = strictMode i.
Proof.
  unfold lookupGenerator, RegisterInstance. simpl. repeat split.
  - by rewrite lookup_insert_eq.
  - by rewrite lookup_insert_eq.
  - rewrite lookup_insert_ne; [done|]. apply PointerTo_neq.
  - intros t Hne. by rewrite lookup_insert_ne.
Qed.

Lemma RegisteredTypes_order (i : Instance) (order : list GoType) :
  RegisteredTypes i order = order.
Proof.
  unfold RegisteredTypes.
  assert (∀ acc, foldl (λ types t, types ++ [t]) acc order = acc ++ order)
    as Hacc; [|apply Hacc].
  induction order as [|t order IH]; intros acc; simpl.
  - by rewrite app_nil_r.
  - by rewrite IH, <- app_assoc.
Qed.

(** Whatever the order of the range, [RegisteredTypes] lists exactly
    the types under which a generator is found, each once. *)
Theorem RegisteredTypes_exact (i : Instance) (order : list GoType) :
  type_order i order →
  (∀ t, t ∈ RegisteredTypes i order ↔ is_Some (lookupGenerator i t))
  ∧ NoDup (RegisteredTypes i order)
  ∧ length (RegisteredTypes i order) = size (generators i).
Proof.
  unfold type_order. intros Hord. rewrite RegisteredTypes_order.
  split; [|split].
  - intros t. rewrite Hord, list_elem_of_fmap. unfold lookupGenerator. split.
    + intros [[k g] [-> Hin%elem_of_map_to_list]]. by eexists.
    + intros [g Hg]. exists (t, g). split; [done|].
      by apply elem_of_map_to_list.
  - rewrite Hord. apply NoDup_fst_map_to_list.
  - rewrite Hord, length_fmap. by rewrite length_map_to_list.
Qed.

End registry_facts.

(** ** Link accumulation and wrapping *)

Section envelope_facts.
Context `{Runtime}.

Lemma foldl_AddLink_Data (e : Envelope) (ls : list Link) :
  Data (foldl AddLink e ls) = Data e ∧ embedded (foldl AddLink e ls) = embedded e.
Proof.
  revert e. induction ls as [|l ls IH]; intros e; [done|]. simpl.
  destruct (IH (AddLink e l)) as [-> ->]. unfold AddLink.
  by rewrite addLinkRaw_Data, addLinkRaw_embedded.
Qed.

Lemma foldl_AddLink_stored (e : Envelope) (ls : list Link) (rel : string) :
  links e !! rel = None →
  links (foldl AddLink e ls) !! rel = stored (filter (λ l, Rel l = rel) ls).
Proof.
  intros Hnone. induction ls as [|l ls IH] using rev_ind; [done|].
  rewrite foldl_snoc, filter_app.
  destruct (decide (Rel l = rel)) as [<-|Hne].
  - rewrite (filter_cons_True _ l) by done. by apply stored_snoc.
  - rewrite (filter_cons_False _ l) by done. simpl. rewrite app_nil_r.
    unfold AddLink. by rewrite addLinkRaw_other.
Qed.

(** With a generator registered under the value's own type Wrap returns
    in either mode: the envelope carries the value, no embedded entry,
    and under each relation the generator's links of that relation in
    the order the generator returned them. *)
Theorem Wrap_with_generator (i : Instance) (ctx : GoContext) (d : Dyn)
    (gen : Generator) :
  lookupGenerator i (TypeOf d) = Some gen →
  ∃ e, Wrap i ctx (Some d) = Return e
       ∧ Data e = Some d
       ∧ embedded e = ∅
       ∧ ∀ rel, links e !! rel = stored (filter (λ l, Rel l = rel) (gen ctx d)).
Proof.
  intros Hgen. exists (foldl AddLink (mkEnvelope (Some d) ∅ ∅) (gen ctx d)).
  split.
  - rewrite Wrap_unfold. unfold computeLinks. simpl. by rewrite Hgen.
  - destruct (foldl_AddLink_Data (mkEnvelope (Some d) ∅ ∅) (gen ctx d))
      as [-> ->].
    split; [done|]. split; [done|].
    intros rel. by apply foldl_AddLink_stored.
Qed.

Lemma Wrap_returns_data (i : Instance) (ctx : GoContext) (data : option Dyn)
    (e : Envelope) :
  Wrap i ctx data = Return e →
  Data e = data ∧ embedded e = ∅ ∧ (data = None → links e = ∅).
Proof.
  unfold Wrap, computeLinks. simpl. destruct data as [d|].
  - destruct (lookupGenerator i (TypeOf d)) as [gen|].
    + intros [= <-].
      destruct (foldl_AddLink_Data (mkEnvelope (Some d) ∅ ∅) (gen ctx d))
        as [-> ->].
      done.
    + destruct (strictMode i).
      * destruct (lookupGenerator i (PointerTo (TypeOf d))); [done|].
        destruct (isStructOrPtrToStruct (TypeOf d)); [done|].
        by intros [= <-].
      * by intros [= <-].
  - by intros [= <-].
Qed.

(** Whatever Wrap returns carries the wrapped value itself and no
    embedded entry, and no link when the value is nil. *)
Theorem Wrap_keeps_data (i : Instance) (ctx : GoContext) (data : option Dyn)
    (e : Envelope) :
  Wrap i ctx data = Return e →
  Data e = data ∧ embedded e = ∅ ∧ (data = None → links e = ∅).
Proof. apply Wrap_returns_data. Qed.

Lemma addLinkRaw_commute (e : Envelope) (r1 r2 : string) (v1 v2 : LinkValue) :
  r1 ≠ r2 →
  addLinkRaw (addLinkRaw e r1 v1) r2 v2 = addLinkRaw (addLinkRaw e r2 v2) r1 v1.
Proof.
  intros Hne.
  assert (∀ e r v, addLinkRaw e r v
                   = mkEnvelope (Data e) (links (addLinkRaw e r v)) (embedded e))
    as Hshape.
  { intros e0 r v. unfold addLinkRaw. by destruct (links e0 !! r) as [[]|]. }
  rewrite (Hshape (addLinkRaw e r1 v1)), (Hshape (addLinkRaw e r2 v2)).
  rewrite !addLinkRaw_Data, !addLinkRaw_embedded. f_equal.
  rewrite (addLinkRaw_links (addLinkRaw e r1 v1)).
  rewrite (addLinkRaw_links (addLinkRaw e r2 v2)).
  rewrite (addLinkRaw_other e r1 r2) by done.
  rewrite (addLinkRaw_other e r2 r1) by done.
  rewrite !addLinkRaw_links. by apply insert_insert_ne.
Qed.

(** Links of different relations may be added in either order: the
    envelope is the same. *)
Theorem AddLink_commute (e : Envelope) (l1 l2 : Link) :
  Rel l1 ≠ Rel l2 →
  AddLink (AddLink e l1) l2 = AddLink (AddLink e l2) l1.
Proof. intros Hne. unfold AddLink. by apply addLinkRaw_commute. Qed.

(** AddLink never removes a relation: after any sequence of calls the
    relations of the map are those it had and those of the links
    added. *)
Theorem AddLink_relations (e : Envelope) (ls : list Link) (rel : string) :
  is_Some (links (foldl AddLink e ls) !! rel)
  ↔ is_Some (links e !! rel) ∨ rel ∈ Rel <$> ls.
Proof.
  revert e. induction ls as [|l ls IH]; intros e; simpl.
  - rewrite elem_of_nil. tauto.
  - rewrite IH, elem_of_cons. unfold AddLink.
    destruct (decide (rel = Rel l)) as [->|Hne].
    + pose proof (addLinkRaw_is_Some e (Rel l) (ALink l)). tauto.
    + rewrite addLinkRaw_other by done. tauto.
Qed.

End envelope_facts.

Lemma Wrap_with_generator_witness :
  ∃ e, Wrap More.twoTypes () (Some Sample.alice) = Return e
       ∧ Data e = Some Sample.alice
       ∧ embedded e = ∅
       ∧ ∀ rel, links e !! rel
                = stored (filter (λ l, Rel l = rel)
                            [Sample.selfLink "/users/101";
                             Sample.relLink "next" "/n";
                             Sample.selfLink "/users/101/alt"]).
Proof.
  apply (Wrap_with_generator More.twoTypes () Sample.alice
           (λ _ _, [Sample.selfLink "/users/101"; Sample.relLink "next" "/n";
                    Sample.selfLink "/users/101/alt"])).
  reflexivity.
Defined.

Lemma Wrap_keeps_data_witness :
  Data (mkEnvelope (Some Sample.fortyTwo) ∅ ∅) = Some Sample.fortyTwo
  ∧ embedded (mkEnvelope (Some Sample.fortyTwo) ∅ ∅) = ∅
  ∧ (Some Sample.fortyTwo = None → links (mkEnvelope (Some Sample.fortyTwo) ∅ ∅) = ∅).
Proof.
  apply (Wrap_keeps_data Sample.strict () (Some Sample.fortyTwo)).
  reflexivity.
Defined.

Lemma AddLink_commute_witness :
  AddLink (AddLink Sample.aliceEnvelope (Sample.relLink "next" "/n"))
    (Sample.selfLink "/b")
  = AddLink (AddLink Sample.aliceEnvelope (Sample.selfLink "/b"))
      (Sample.relLink "next" "/n").
Proof.
  apply (AddLink_commute Sample.aliceEnvelope (Sample.relLink "next" "/n")
           (Sample.selfLink "/b")).
  discriminate.
Defined.

(** ** The encoder *)

Section encoder_facts.
Context `{Runtime}.

(** The classification is exhaustive and exclusive: null for no bytes
    or the literal, the error for other bytes that do not open with a
    brace, the empty object for exactly ["{}"], populated for every
    other byte sequence that opens with a brace; the two flags are never
    both set. *)
Theorem checkJSONStructure_classes (b : bytes) :
  (checkJSONStructure b = Ok (true, false) ↔ b = [] ∨ b = B "null")
  ∧ (checkJSONStructure b = Err errNotObject
     ↔ b ≠ [] ∧ b ≠ B "null" ∧ b !! 0%nat ≠ Some "{"%byte)
  ∧ (checkJSONStructure b = Ok (false, true) ↔ b = B "{}")
  ∧ (checkJSONStructure b = Ok (false, false)
     ↔ b !! 0%nat = Some "{"%byte ∧ b ≠ B "{}")
  ∧ checkJSONStructure b ≠ Ok (true, true).
Proof.
  destruct (decide (b = [] ∨ b = B "null")) as [Hnull|Hnn].
  - rewrite (checkJSONStructure_null b Hnull).
    assert (b ≠ B "{}") by (by destruct Hnull as [-> | ->]).
    assert (b !! 0%nat ≠ Some "{"%byte) by (by destruct Hnull as [-> | ->]).
    split_and!; [split|split|split|split|]; naive_solver.
  - destruct (decide (b !! 0%nat = Some "{"%byte)) as [Hhd|Hhd].
    + rewrite (checkJSONStructure_object b Hhd).
      destruct (decide (b = B "{}")) as [Heq|Hneq].
      * rewrite (bool_decide_eq_true_2 _ Heq).
        split_and!; [split|split|split|split|]; naive_solver.
      * rewrite (bool_decide_eq_false_2 _ Hneq).
        split_and!; [split|split|split|split|]; naive_solver.
    + rewrite checkJSONStructure_non_object; [|tauto|tauto|done].
      assert (b ≠ B "{}") by (intros ->; by apply Hhd).
      split_and!; [split|split|split|split|]; naive_solver.
Qed.

Lemma MarshalJSON_envelope (i : Instance) (e : Envelope) (order : list string) :
  (MarshalJSON i e order).2 = e
  ∨ (∃ out, MarshalJSON i e order = (Return (Ok out), injectCuries i e order)).
Proof.
  rewrite MarshalJSON_unfolded.
  destruct (marshalData e) as [data|err]; [|by left].
  destruct (checkJSONStructure data) as [[isNull isEmpty]|err] eqn:Hc;
    [|by left].
  cbv zeta. right. destruct (size _ =? 0)%nat.
  - destruct isNull; by eexists.
  - destruct isNull; simpl; [by eexists|].
    destruct isEmpty; simpl; [by eexists|].
    destruct (checkJSONStructure_flags data false false Hc) as (_ & _ & Hhd).
    destruct data as [|c data]; [by specialize (Hhd eq_refl)|].
    by eexists.
Qed.

(** A failed encoding leaves the envelope as it was, and there are two
    ways to fail: the error of the external encoder, handed on as it
    is, or the data-shape error for bytes that are not null and do not
    open with a brace. *)
Theorem MarshalJSON_error (i : Instance) (e e' : Envelope) (order : list string)
    (err : error) :
  MarshalJSON i e order = (Return (Err err), e') →
  e' = e
  ∧ ((∃ d, Data e = Some d ∧ jsonMarshal d = Err err)
     ∨ (err = errNotObject
        ∧ ∃ b, marshalData e = Ok b ∧ b ≠ [] ∧ b ≠ B "null"
               ∧ b !! 0%nat ≠ Some "{"%byte)).
Proof.
  intros Hm.
  destruct (MarshalJSON_envelope i e order) as [He|[out Hout]];
    [|by rewrite Hout in Hm].
  rewrite Hm in He. simpl in He. subst e'. split; [done|].
  unfold MarshalJSON in Hm.
  destruct (marshalData e) as [data|err0] eqn:Hd.
  - right. destruct (checkJSONStructure data) as [[isNull isEmpty]|err0] eqn:Hc.
    + destruct (marshalMeta i e order) as [[meta|?] e1] eqn:Hmeta.
      * by destruct (spliceJSON data meta isNull isEmpty).
      * unfold marshalMeta in Hmeta. by destruct (size _ =? 0)%nat.
    + injection Hm as <-.
      destruct (decide (data = [] ∨ data = B "null")) as [Hnull|Hnn].
      { by rewrite (checkJSONStructure_null data Hnull) in Hc. }
      destruct (decide (data !! 0%nat = Some "{"%byte)) as [Hhd|Hhd].
      { rewrite (checkJSONStructure_object data Hhd) in Hc. done. }
      rewrite checkJSONStructure_non_object in Hc; [|tauto|tauto|done].
      injection Hc as <-. split; [done|]. exists data. tauto.
  - left. unfold marshalData in Hd. destruct (Data e) as [d|]; [|done].
    exists d. split; [done|]. injection Hm as <-.
    by destruct (jsonMarshal d).
Qed.

Lemma encoders_return (i : Instance) (e : Envelope) (order : list string) :
  (∃ r e', MarshalJSON i e order = (Return r, e'))
  ∧ (∃ r e', Inline.MarshalJSON i e order = (Return r, e')).
Proof.
  split; [apply MarshalJSON_no_panic|].
  unfold Inline.MarshalJSON.
  destruct (match Data e with Some d => jsonMarshal d | None => Ok [] end)
    as [raw|err]; [|by eexists _, _].
  cbv zeta. set (data := TrimSpace raw).
  destruct (length data =? 0)%nat eqn:Hlen; cbn [orb negb andb].
  - destruct (size _ =? 0)%nat; by eexists _, _.
  - repeat case_match; by eexists _, _.
Qed.

(** For an envelope that holds a registry, as every envelope made by
    Wrap does, the slice expression [data[:len(data)-1]] of the combine
    step is in range whenever either encoder evaluates it: the step is
    reached only with record bytes that are not empty, so neither
    encoder raises the slice-bounds panic. *)
Theorem combine_slice_in_range (i : Instance) (e : Envelope)
    (order : list string) :
  (MarshalJSON i e order).1 ≠ Panic SliceBounds
  ∧ (Inline.MarshalJSON i e order).1 ≠ Panic SliceBounds.
Proof.
  destruct (encoders_return i e order) as [(r & e1 & ->) (r' & e2 & ->)].
  by split.
Qed.

End encoder_facts.

Lemma MarshalJSON_error_witness :
  mkEnvelope (Some Sample.fortyTwo) ∅ ∅ = mkEnvelope (Some Sample.fortyTwo) ∅ ∅
  ∧ ((∃ d, Data (mkEnvelope (Some Sample.fortyTwo) ∅ ∅) = Some d
           ∧ jsonMarshal d = Err errNotObject)
     ∨ (errNotObject = errNotObject
        ∧ ∃ b, @marshalData asciiRuntime
                 (mkEnvelope (Some Sample.fortyTwo) ∅ ∅) = Ok b
               ∧ b ≠ [] ∧ b ≠ B "null" ∧ b !! 0%nat ≠ Some "{"%byte)).
Proof.
  apply (MarshalJSON_error Sample.permissive
           (mkEnvelope (Some Sample.fortyTwo) ∅ ∅)
           (mkEnvelope (Some Sample.fortyTwo) ∅ ∅) [] errNotObject).
  reflexivity.
Defined.

(** ** What an encoding does to the envelope and what it emits *)

Section encoding_facts.
Context `{Runtime}.

Lemma injectCuries_cases (i : Instance) (e : Envelope) (order : list string) :
  (resolveCuries i (links e) order = [] ∧ injectCuries i e order = e)
  ∨ (resolveCuries i (links e) order ≠ []
     ∧ injectCuries i e order
       = addLinkRaw e "curies" (ALinks (resolveCuries i (links e) order))).
Proof.
  unfold injectCuries.
  destruct (resolveCuries i (links e) order) as [|c cs]; [by left|by right].
Qed.

Lemma injectCuries_keeps (i : Instance) (e : Envelope) (order : list string) :
  Data (injectCuries i e order) = Data e
  ∧ embedded (injectCuries i e order) = embedded e
  ∧ (∀ rel, rel ≠ "curies" →
            links (injectCuries i e order) !! rel = links e !! rel)
  ∧ (∀ rel, is_Some (links e !! rel) →
            is_Some (links (injectCuries i e order) !! rel)).
Proof.
  destruct (injectCuries_cases i e order) as [[_ ->]|[_ ->]]; [done|].
  rewrite addLinkRaw_Data, addLinkRaw_embedded.
  split; [done|]. split; [done|]. split.
  - intros rel Hne. by rewrite addLinkRaw_other.
  - intros rel Hrel. destruct (decide (rel = "curies")) as [->|Hne].
    + apply addLinkRaw_is_Some.
    + by rewrite addLinkRaw_other.
Qed.

Lemma Inline_envelope (i : Instance) (e : Envelope) (order : list string) :
  (Inline.MarshalJSON i e order).2 = e
  ∨ (Inline.MarshalJSON i e order).2 = injectCuries i e order.
Proof. unfold Inline.MarshalJSON. repeat case_match; simpl; auto. Qed.

(** Encoding, with either encoder and whatever it returns, keeps the
    wrapped value, the embedded map and every relation of the link map:
    only what is stored under ["curies"] may change, and no relation is
    removed. *)
Theorem encoding_keeps_links (i : Instance) (e : Envelope) (order : list string) :
  ∀ e', e' = (MarshalJSON i e order).2 ∨ e' = (Inline.MarshalJSON i e order).2 →
    Data e' = Data e
    ∧ embedded e' = embedded e
    ∧ (∀ rel, rel ≠ "curies" → links e' !! rel = links e !! rel)
    ∧ (∀ rel, is_Some (links e !! rel) → is_Some (links e' !! rel)).
Proof.
  intros e' He'.
  assert (e' = e ∨ e' = injectCuries i e order) as [-> | ->].
  { destruct He' as [-> | ->].
    - destruct (MarshalJSON_envelope i e order) as [->|[out ->]]; auto.
    - destruct (Inline_envelope i e order) as [-> | ->]; auto. }
  - done.
  - apply injectCuries_keeps.
Qed.

Lemma buildMeta_empty (e : Envelope) :
  buildMeta e = ∅ ↔ links e = ∅ ∧ embedded e = ∅.
Proof.
  unfold buildMeta. split.
  - intros Hm.
    destruct (0 <? size (embedded e))%nat eqn:He.
    { by apply insert_non_empty in Hm. }
    destruct (0 <? size (links e))%nat eqn:Hl.
    { by apply insert_non_empty in Hm. }
    apply Nat.ltb_ge in He, Hl.
    split; apply map_size_empty_iff; lia.
  - intros [-> ->]. by rewrite map_size_empty.
Qed.

(** The metadata is empty exactly when the envelope has no link and no
    embedded entry, whatever CURIEs are registered. *)
Theorem marshalMeta_empty_iff (i : Instance) (e : Envelope) (order : list string) :
  (marshalMeta i e order).1 = Ok [] ↔ links e = ∅ ∧ embedded e = ∅.
Proof.
  unfold marshalMeta. cbv zeta.
  destruct (size (buildMeta (injectCuries i e order)) =? 0)%nat eqn:Hsz; simpl.
  - apply Nat.eqb_eq, map_size_empty_iff, buildMeta_empty in Hsz
      as [Hl He].
    destruct (injectCuries_keeps i e order) as (_ & Hemb & _ & Hkeep).
    split; [intros _|done]. split; [|by rewrite <- Hemb].
    apply map_eq. intros rel. rewrite lookup_empty.
    destruct (links e !! rel) eqn:Hrel; [|done].
    destruct (Hkeep rel) as [v Hv]; [by eexists|].
    by rewrite Hl, lookup_empty in Hv.
  - split.
    + by intros [= Hnil].
    + intros [Hl He]. exfalso. apply Nat.eqb_neq in Hsz. apply Hsz.
      apply map_size_empty_iff, buildMeta_empty.
      destruct (injectCuries_cases i e order) as [[_ ->]|[Hne _]]; [done|].
      exfalso. apply Hne. rewrite Hl. apply resolveCuries_no_links.
Qed.

(** When no curie resolves, encoding leaves the envelope as it was, and
    encoding it again, under any range order, returns the same result:
    without CURIEs in use the encoder is idempotent. *)
Theorem encode_idempotent_without_curies (i : Instance) (e : Envelope)
    (order1 order2 : list string) :
  range_order (links e) order1 → range_order (links e) order2 →
  resolveCuries i (links e) order1 = [] →
  (MarshalJSON i e order1).2 = e
  ∧ MarshalJSON i (MarshalJSON i e order1).2 order2 = MarshalJSON i e order1.
Proof.
  intros Ho1 Ho2 Hnil.
  assert ((MarshalJSON i e order1).2 = e) as Hsame.
  { destruct (MarshalJSON_envelope i e order1) as [->|[out ->]]; [done|].
    simpl. by destruct (injectCuries_cases i e order1) as [[_ ->]|[Hne _]]. }
  split; [done|]. rewrite Hsame.
  apply MarshalJSON_same_curies. rewrite Hnil.
  symmetry. apply Permutation_nil_l. rewrite <- Hnil.
  by apply resolveCuries_Permutation.
Qed.

(** Wrapping nil never panics, in either mode, and the bare envelope
    encodes to ["{}"] and is left as it was. *)
Theorem Wrap_nil_encodes_empty_object (i : Instance) (ctx : GoContext)
    (order : list string) :
  Wrap i ctx None = Return (mkEnvelope None ∅ ∅)
  ∧ MarshalJSON i (mkEnvelope None ∅ ∅) order
    = (Return (Ok (B "{}")), mkEnvelope None ∅ ∅)
  ∧ (TrimSpace [] = [] →
     Inline.MarshalJSON i (mkEnvelope None ∅ ∅) order
     = (Return (Ok (B "{}")), mkEnvelope None ∅ ∅)).
Proof.
  split; [done|]. split.
  - rewrite (MarshalJSON_steps i _ (mkEnvelope None ∅ ∅) order [] [] true false);
      [done|done|done|apply marshalMeta_bare].
  - intros Hnil. unfold Inline.MarshalJSON. simpl. rewrite Hnil. simpl.
    unfold injectCuries. simpl. rewrite resolveCuries_no_links. simpl.
    by rewrite buildMeta_bare, map_size_empty.
Qed.

End encoding_facts.

(** ** The shape of the output *)

Section framing.
Context `{Runtime}.

Lemma jsonObject_framed {V} (enc : V → bytes) (m : gmap string V) :
  framed (jsonObject enc m).
Proof.
  unfold framed, jsonObject. split; [done|].
  change (B "}") with ["}"%byte]. by rewrite app_assoc, last_snoc.
Qed.

Lemma framed_splice (data meta : bytes) :
  framed data → framed meta → 2 ≤ length meta →
  framed (take (length data - 1) data ++ B "," ++ drop 1 meta).
Proof.
  intros [Hhd Hlast] [Hmhd Hmlast] Hlen.
  apply last_Some in Hlast as [body ->].
  rewrite length_app, Nat.add_comm. simpl. rewrite Nat.sub_0_r, take_app_length.
  destruct body as [|c body]; [done|]. simpl in Hhd. injection Hhd as ->.
  split; [done|].
  destruct meta as [|c [|c' meta]]; [simpl in Hlen; lia|simpl in Hlen; lia|].
  rewrite last_cons_cons in Hmlast. simpl.
  change (last ("{"%byte :: body ++ ","%byte :: c' :: meta))
    with (last (("{"%byte :: body) ++ ","%byte :: c' :: meta)).
  by rewrite last_app_cons, last_cons_cons.
Qed.

(** When the external encoder keeps its contract, returning for the
    record either null or bytes that close with a brace, every
    successful encoding opens with a brace and closes with one. *)
Theorem MarshalJSON_framed (i : Instance) (e e' : Envelope)
    (order : list string) (data out : bytes) :
  marshalData e = Ok data →
  data = [] ∨ data = B "null" ∨ last data = Some "}"%byte →
  MarshalJSON i e order = (Return (Ok out), e') →
  framed out.
Proof.
  intros Hd Hshape. rewrite MarshalJSON_unfolded, Hd.
  destruct (checkJSONStructure data) as [[isNull isEmpty]|err] eqn:Hc;
    [|done].
  destruct (checkJSONStructure_flags data isNull isEmpty Hc)
    as (Hnull & Hempty & Hhd).
  cbv zeta.
  pose proof (jsonObject_framed (jsonObject jsonValue)
                (buildMeta (injectCuries i e order))) as Hmeta.
  pose proof (jsonObject_length_ge (jsonObject jsonValue)
                (buildMeta (injectCuries i e order))) as Hlen.
  set (mb := jsonObject (jsonObject jsonValue)
               (buildMeta (injectCuries i e order))) in *.
  clearbody mb.
  assert (isNull = false → framed data) as Hdata.
  { intros ->. split; [rewrite head_lookup; by apply Hhd|].
    destruct Hshape as [Hs|[Hs|Hs]]; [| |done].
    - by assert (false = true) by (apply Hnull; by left).
    - by assert (false = true) by (apply Hnull; by right). }
  destruct (size _ =? 0)%nat.
  - destruct isNull; intros [= <- _]; [done|by apply Hdata].
  - destruct isNull; cbn [orb]; [by intros [= <- _]|].
    destruct isEmpty; cbn [orb]; [by intros [= <- _]|].
    destruct (length data =? 0)%nat; [done|].
    intros [= <- _]. by apply framed_splice; [apply Hdata| |].
Qed.

End framing.

Lemma MarshalJSON_framed_witness : framed Sample.aliceHAL.
Proof.
  apply (MarshalJSON_framed Sample.withSelf Sample.aliceEnvelope
           Sample.aliceEnvelope ["self"] Sample.aliceJSON Sample.aliceHAL).
  - reflexivity.
  - right. right. reflexivity.
  - by vm_compute.
Defined.

(** ** CURIE prefixes *)

Section prefix_facts.
Context `{Runtime}.

Lemma IndexByte_found (s : string) (c : ascii) :
  (0 ≤ IndexByte s c)%Z →
  ∃ pre rest, s = String.app pre (String c rest)
              ∧ IndexByte pre c = (-1)%Z
              ∧ IndexByte s c = Z.of_nat (String.length pre).
Proof.
  induction s as [|a s IH]; simpl; [lia|].
  destruct (Ascii.eqb a c) eqn:Hac.
  - apply Ascii.eqb_eq in Hac as ->. intros _. by exists EmptyString, s.
  - destruct (IndexByte s c <? 0)%Z eqn:Hr; [lia|].
    apply Z.ltb_ge in Hr. intros _.
    destruct (IH Hr) as (pre & rest & -> & Hpre & Hidx).
    exists (String a pre), rest. simpl. rewrite Hac, Hpre. simpl.
    split; [done|]. split; [done|]. lia.
Qed.

Lemma IndexByte_app (pre rest : string) (c : ascii) :
  IndexByte pre c = (-1)%Z →
  IndexByte (String.app pre (String c rest)) c = Z.of_nat (String.length pre).
Proof.
  induction pre as [|a pre IH]; simpl.
  - intros _. by rewrite Ascii.eqb_refl.
  - destruct (Ascii.eqb a c); [lia|].
    destruct (IndexByte pre c <? 0)%Z eqn:Hr; [|lia].
    intros _. rewrite IH.
    + destruct (Z.of_nat (String.length pre) <? 0)%Z eqn:Hn; lia.
    + apply Z.ltb_lt in Hr. clear IH.
      induction pre as [|b pre IHp]; simpl in *; [done|].
      destruct (Ascii.eqb b c); [lia|].
      destruct (IndexByte pre c <? 0)%Z eqn:Hb; [done|].
      apply Z.ltb_ge in Hb. lia.
Qed.

Lemma substring_app_prefix (pre rest : string) :
  substring 0 (String.length pre) (String.app pre rest) = pre.
Proof.
  induction pre as [|a pre IH]; simpl.
  - by destruct rest.
  - by rewrite IH.
Qed.

Lemma IndexByte_absent (s : string) (c : ascii) :
  IndexByte s c = (-1)%Z ↔ ¬ In c (list_ascii_of_string s).
Proof.
  induction s as [|a s IH]; simpl; [tauto|].
  destruct (Ascii.eqb a c) eqn:Hac.
  - apply Ascii.eqb_eq in Hac as ->. split; [lia|tauto].
  - apply Ascii.eqb_neq in Hac.
    destruct (IndexByte s c <? 0)%Z eqn:Hr.
    + apply Z.ltb_lt in Hr.
      assert (IndexByte s c = (-1)%Z) as Hs.
      { clear IH. induction s as [|b s IHs]; simpl in *; [done|].
        destruct (Ascii.eqb b c); [lia|].
        destruct (IndexByte s c <? 0)%Z eqn:Hb; [done|].
        apply Z.ltb_ge in Hb. lia. }
      apply IH in Hs. tauto.
    + apply Z.ltb_ge in Hr. split; [lia|].
      intros Hnot. exfalso.
      assert (IndexByte s c ≠ (-1)%Z) as Hs by lia.
      apply Hs, IH. tauto.
Qed.

(** The prefix read off a relation name is the text before its first
    colon, and there is one only when that text is not empty: [rel] has
    the prefix [p] exactly when [rel] is [p], a colon and any rest, with
    [p] non-empty and free of colons. *)
Theorem curiePrefix_spec (rel p : string) :
  curiePrefix rel = Some p
  ↔ p ≠ "" ∧ ¬ In ":"%char (list_ascii_of_string p)
    ∧ ∃ rest, rel = String.app p (String ":" rest).
Proof.
  rewrite <- IndexByte_absent. unfold curiePrefix. split.
  - destruct (0 <? IndexByte rel ":")%Z eqn:Hpos; [|done].
    apply Z.ltb_lt in Hpos.
    destruct (IndexByte_found rel ":") as (pre & rest & -> & Hpre & Hidx);
      [lia|].
    rewrite Hidx in Hpos.
    rewrite Hidx, Nat2Z.id, substring_app_prefix. intros [= <-].
    split; [|split; [done|by exists rest]].
    intros ->. simpl in Hpos. lia.
  - intros (Hne & Hpre & rest & ->).
    rewrite (IndexByte_app p rest ":" Hpre).
    assert ((0 <? Z.of_nat (String.length p))%Z = true) as ->.
    { apply Z.ltb_lt. destruct p; [done|simpl; lia]. }
    by rewrite Nat2Z.id, substring_app_prefix.
Qed.

(** Registering a CURIE makes every relation name of a link map that
    carries the prefix resolve to the template just registered, replaces
    whatever template the prefix had, leaves the entries of other
    prefixes alone, and changes nothing in what Wrap returns. *)
Theorem RegisterCurie_resolves (i : Instance) (prefix href : string)
    (m : gmap string LinkValue) (order : list string) (rel : string) :
  range_order m order →
  is_Some (m !! rel) →
  curiePrefix rel = Some prefix →
  curieLink prefix href ∈ resolveCuries (RegisterCurie i prefix href) m order
  ∧ (∀ c, c ∈ resolveCuries (RegisterCurie i prefix href) m order →
          Name c = prefix → Href c = href)
  ∧ (∀ c, Name c ≠ prefix →
          c ∈ resolveCuries (RegisterCurie i prefix href) m order
          ↔ c ∈ resolveCuries i m order)
  ∧ (∀ ctx data, Wrap (RegisterCurie i prefix href) ctx data = Wrap i ctx data).
Proof.
  intros Hord Hrel Hpre. split; [|split; [|split]].
  - apply (resolveCuries_elem _ m order _ Hord).
    exists rel, prefix, href. split; [done|]. split; [done|].
    split; [|done]. simpl. by rewrite lookup_insert_eq.
  - intros c Hc Hname.
    apply (resolveCuries_elem _ m order _ Hord) in Hc
      as (rel' & p' & h' & _ & _ & Hreg & ->).
    simpl in *. subst p'. rewrite lookup_insert_eq in Hreg. by injection Hreg.
  - intros c Hname. rewrite !(resolveCuries_elem _ m order _ Hord). split.
    + intros (rel' & p' & h' & Hr & Hp & Hreg & ->).
      exists rel', p', h'. simpl in *.
      rewrite lookup_insert_ne in Hreg by done. done.
    + intros (rel' & p' & h' & Hr & Hp & Hreg & ->).
      exists rel', p', h'. simpl in *.
      rewrite lookup_insert_ne by done. done.
  - done.
Qed.

End prefix_facts.

Lemma curiePrefix_spec_witness :
  curiePrefix "acme:widgets:all" = Some "acme" ∧ curiePrefix ":x" = None.
Proof.
  split; [|reflexivity].
  apply (curiePrefix_spec "acme:widgets:all" "acme").
  split; [done|]. split; [|by exists "widgets:all"].
  apply IndexByte_absent. reflexivity.
Defined.

Lemma RegisterCurie_resolves_witness :
  curieLink "acme" "https://v2/{rel}"
  ∈ resolveCuries (RegisterCurie Sample.withCuries "acme" "https://v2/{rel}")
      (links Sample.acmeDoc) ["doc:b"; "acme:a"].
Proof.
  destruct (RegisterCurie_resolves Sample.withCuries "acme" "https://v2/{rel}"
              (links Sample.acmeDoc) ["doc:b"; "acme:a"] "acme:a")
    as [Hin _].
  - solve_range_order.
  - vm_compute. by eexists.
  - reflexivity.
  - exact Hin.
Defined.

(** ** The collection wrapper, further *)

Section collection_more.
Context `{Runtime}.

Lemma wrapItems_returns (i : Instance) (ctx : GoContext)
    (items : list (option Dyn)) :
  (∀ item, item ∈ items → ∃ env, Wrap i ctx item = Return env) →
  ∃ envs, wrapItems i ctx items = Return envs.
Proof.
  induction items as [|item items IH]; intros Hall; simpl; [by eexists|].
  destruct (Hall item) as [env ->]; [apply list_elem_of_here|].
  destruct IH as [envs ->]; [|by eexists].
  intros x Hx. apply Hall. by apply list_elem_of_further.
Qed.

(** Over a slice, Collection returns exactly when Wrap returns for
    every item: always for the empty slice, and under a strict registry
    whenever each item has its generator. *)
Theorem Collection_returns_iff (i : Instance) (ctx : GoContext)
    (items : option Dyn) (total : Z) (selfLink : Link) :
  ValueKind items = KSlice →
  (∃ page, Collection i ctx items total selfLink = Return page)
  ↔ ∀ item, item ∈ from_option elemsOf [] items →
            ∃ env, Wrap i ctx item = Return env.
Proof.
  intros Hk. rewrite (Collection_slice _ _ _ _ _ Hk). split.
  - intros [page Hpage] item Hin.
    destruct (Wrap i ctx item) as [env|p] eqn:Hw; [by eexists|].
    destruct (wrapItems_panics i ctx _ item p Hin Hw) as [p' Hp'].
    by rewrite Hp' in Hpage.
  - intros Hall. destruct (wrapItems_returns i ctx _ Hall) as [envs ->].
    by eexists.
Qed.

Lemma Forall2_Wrap_Data (i : Instance) (ctx : GoContext)
    (items : list (option Dyn)) (envs : list Envelope) :
  Forall2 (λ item env, Wrap i ctx item = Return env) items envs →
  Data <$> envs = items ∧ Forall (λ env, embedded env = ∅) envs.
Proof.
  induction 1 as [|item env items envs Hw _ [IHd IHe]]; [done|].
  destruct (Wrap_returns_data i ctx item env Hw) as (Hd & He & _).
  split; [|by constructor].
  change (Data <$> env :: envs) with (Data env :: (Data <$> envs)).
  by rewrite Hd, IHd.
Qed.

(** The page Collection returns embeds, under ["items"] and nowhere
    else, envelopes that carry the items themselves in input order and
    have no embedded entries of their own. *)
Theorem Collection_items_data (i : Instance) (ctx : GoContext)
    (items : option Dyn) (total : Z) (selfLink : Link) (page : CollectionPage) :
  Collection i ctx items total selfLink = Return page →
  ∃ envs, Embedded page !! "items" = Some envs
          ∧ Data <$> envs = from_option elemsOf [] items
          ∧ Forall (λ env, embedded env = ∅) envs
          ∧ ∀ rel, rel ≠ "items" → Embedded page !! rel = None.
Proof.
  unfold Collection. case_bool_decide; [|done]. simpl.
  destruct (wrapItems i ctx _) as [envs|p] eqn:Hw; [|done].
  intros [= <-]. simpl. exists envs.
  apply wrapItems_Forall2, Forall2_Wrap_Data in Hw as [Hd He].
  split; [by rewrite lookup_insert_eq|]. split; [done|]. split; [done|].
  intros rel Hne. by rewrite lookup_insert_ne.
Qed.

End collection_more.

Lemma Collection_returns_iff_witness :
  (∃ page, Collection More.twoTypes () (Some Sample.users) 2
             (Sample.selfLink "/all") = Return page)
  ∧ ∃ page, Collection Sample.strict () (Some More.noUsers) 0
              (Sample.selfLink "/users") = Return page.
Proof.
  split.
  - apply (Collection_returns_iff More.twoTypes () (Some Sample.users));
      [reflexivity|].
    intros item Hin. simpl in Hin.
    apply elem_of_cons in Hin as [->|Hin]; [by eexists|].
    apply list_elem_of_singleton in Hin as ->. by eexists.
  - apply (Collection_returns_iff Sample.strict () (Some More.noUsers));
      [reflexivity|].
    intros item Hin. by apply elem_of_nil in Hin.
Defined.

Lemma Collection_items_data_witness :
  ∃ envs, Embedded Sample.usersPage !! "items" = Some envs
          ∧ Data <$> envs = [Some Sample.alice; Some Sample.bob]
          ∧ Forall (λ env, embedded env = ∅) envs
          ∧ ∀ rel, rel ≠ "items" → Embedded Sample.usersPage !! rel = None.
Proof.
  apply (Collection_items_data Sample.permissive () (Some Sample.users) 7
           (Sample.relLink "next" "/next") Sample.usersPage).
  reflexivity.
Defined.

Lemma RegisteredTypes_exact_witness :
  length (RegisteredTypes More.twoTypes [TPtr More.Order; TPtr Sample.User])
  = 2%nat.
Proof.
  apply (RegisteredTypes_exact More.twoTypes
           [TPtr More.Order; TPtr Sample.User]).
  unfold type_order. vm_compute.
  apply (bool_decide_unpack _). vm_compute. exact I.
Defined.

Lemma encode_idempotent_without_curies_witness :
  (MarshalJSON Sample.withSelf Sample.aliceEnvelope ["self"]).2
  = Sample.aliceEnvelope
  ∧ MarshalJSON Sample.withSelf
      (MarshalJSON Sample.withSelf Sample.aliceEnvelope ["self"]).2 ["self"]
    = MarshalJSON Sample.withSelf Sample.aliceEnvelope ["self"].
Proof.
  apply (encode_idempotent_without_curies Sample.withSelf
           Sample.aliceEnvelope ["self"] ["self"]).
  - solve_range_order.
  - solve_range_order.
  - reflexivity.
Defined.

Lemma encoding_keeps_links_witness :
  Data Sample.acmeSelfInjected = Data Sample.acmeSelf
  ∧ embedded Sample.acmeSelfInjected = embedded Sample.acmeSelf
  ∧ (∀ rel, rel ≠ "curies" →
            links Sample.acmeSelfInjected !! rel = links Sample.acmeSelf !! rel)
  ∧ (∀ rel, is_Some (links Sample.acmeSelf !! rel) →
            is_Some (links Sample.acmeSelfInjected !! rel)).
Proof.
  apply (encoding_keeps_links Sample.withCuries Sample.acmeSelf
           ["acme:a"; "self"] Sample.acmeSelfInjected).
  left. reflexivity.
Defined.

Lemma Wrap_nil_encodes_empty_object_witness :
  Inline.MarshalJSON Sample.strict (mkEnvelope None ∅ ∅) []
  = (Return (Ok (B "{}")), mkEnvelope None ∅ ∅).
Proof.
  destruct (Wrap_nil_encodes_empty_object Sample.strict () [])
    as (_ & _ & Hinline).
  apply Hinline. reflexivity.
Defined.

Lemma Inline_agrees_witness :
  Inline.MarshalJSON Sample.withSelf Sample.aliceEnvelope ["self"]
  = MarshalJSON Sample.withSelf Sample.aliceEnvelope ["self"].
Proof.
  apply (Inline_agrees Sample.withSelf Sample.aliceEnvelope ["self"]).
  - reflexivity.
  - intros d raw [= <-] [= <-]. split; [by vm_compute|].
    split; by vm_compute.
Defined.

Lemma RegisterInstance_lookup_witness :
  lookupGenerator (RegisterInstance Sample.User Sample.strict Sample.noLinks)
    (TPtr More.Order)
  = lookupGenerator Sample.strict (TPtr More.Order).
Proof.
  destruct (RegisterInstance_lookup Sample.User Sample.strict Sample.noLinks
              Sample.noLinks) as (_ & _ & _ & Hother & _).
  apply Hother. discriminate.
Defined.

Lemma checkJSONStructure_classes_witness :
  checkJSONStructure (B "[1,2]") = Err errNotObject.
Proof.
  apply (checkJSONStructure_classes (B "[1,2]")).
  split; [done|]. split; done.
Defined.

Lemma marshalMeta_empty_iff_witness :
  (marshalMeta Sample.withCuries (mkEnvelope (Some Sample.alice) ∅ ∅) []).1
  = Ok [].
Proof.
  apply (marshalMeta_empty_iff Sample.withCuries
           (mkEnvelope (Some Sample.alice) ∅ ∅) []).
  split; reflexivity.
Defined.

Lemma AddLink_relations_witness :
  is_Some (links (foldl AddLink Sample.aliceEnvelope
                    [Sample.relLink "next" "/n"]) !! "self").
Proof.
  apply (AddLink_relations Sample.aliceEnvelope [Sample.relLink "next" "/n"]
           "self").
  left. vm_compute. by eexists.
Defined.

(** ** The combine step of both encoders *)

Section combine.
Context `{Runtime}.

(** The earlier encoder, with its classification and its combine step
    named: it returns the shape error and the untouched envelope when
    the shape check fails, and otherwise what [spliceJSON] returns on its
    own two flags. *)
Lemma Inline_combine (i : Instance) (e e' : Envelope) (order : list string)
    (data meta : bytes) :
  marshalData e = Ok data →
  marshalMeta i e order = (Ok meta, e') →
  TrimSpace [] = [] →
  Inline.MarshalJSON i e order =
    if inlineShapeError data then (Return (Err errNotObject), e)
    else (combined (spliceJSON data meta (isDataNull data)
                      (isDataEmptyObj data)), e').
Proof.
  intros Hd Hm Hnil.
  assert (match Data e with Some d => jsonMarshal d | None => Ok [] end
          = Ok (match Data e with
                | Some d => match jsonMarshal d with Ok raw => raw | _ => [] end
                | None => []
                end)
          ∧ data = TrimSpace (match Data e with
                              | Some d =>
                                  match jsonMarshal d with Ok raw => raw | _ => [] end
                              | None => []
                              end)) as [Hraw Hdata].
  { unfold marshalData in Hd. destruct (Data e) as [d|].
    - destruct (jsonMarshal d) as [raw|]; [|done]. by injection Hd as <-.
    - injection Hd as <-. by rewrite Hnil. }
  unfold Inline.MarshalJSON. rewrite Hraw. cbv zeta. rewrite <- Hdata.
  clear Hraw Hdata Hd.
  unfold marshalMeta in Hm. cbv zeta in Hm.
  unfold inlineShapeError, isDataEmptyObj, isDataNull, combined, spliceJSON.
  pose proof (jsonObject_length_ge (jsonObject jsonValue)
                (buildMeta (injectCuries i e order))) as Hlen.
  set (mb := jsonObject (jsonObject jsonValue)
               (buildMeta (injectCuries i e order))) in *.
  clearbody mb.
  set (null := (length data =? 0)%nat || bool_decide (data = B "null")).
  set (rest := TrimSpace (drop 1 data)).
  set (closes := (length rest =? 1)%nat
                 && bool_decide (rest !! 0%nat = Some "}"%byte)).
  clearbody closes.
  destruct (size (buildMeta (injectCuries i e order)) =? 0)%nat;
    injection Hm as <- <-.
  - destruct null, (2 <=? length data)%nat,
      (bool_decide (data !! 0%nat = Some "{"%byte)); cbn; try done;
      by destruct closes.
  - destruct mb as [|c mb]; [simpl in Hlen; lia|].
    destruct null, (2 <=? length data)%nat,
      (bool_decide (data !! 0%nat = Some "{"%byte)); cbn [negb andb orb];
      try done; destruct closes; cbn [negb andb orb length Nat.eqb];
      try done; by destruct (length data =? 0)%nat.
Qed.

(** C1.  For both encoders, once the record and the metadata have been
    serialized: the refactored encoder returns what [spliceJSON] returns
    on the flags of [checkJSONStructure], the earlier one what the same
    combine step returns on its own flags (or the shape error); an
    absent record is null; and the combine step follows the four cases,
    whichever encoder set the flags: ["{}"] for empty metadata and a
    null record; the record's bytes for empty metadata and a record
    that is not null; the metadata's bytes for metadata and a null or
    empty-object record; and for metadata [{rest] and a populated record
    [body}] the bytes [body,rest]. *)
Theorem splice_four_cases (i : Instance) (e e' : Envelope)
    (order : list string) (data meta : bytes) :
  marshalData e = Ok data →
  marshalMeta i e order = (Ok meta, e') →
  (∀ isNull isEmpty,
     checkJSONStructure data = Ok (isNull, isEmpty) →
     MarshalJSON i e order
     = (combined (spliceJSON data meta isNull isEmpty), e')
     ∧ isNull = isDataNull data
     ∧ (isEmpty = true ↔ data = B "{}"))
  ∧ (TrimSpace [] = [] →
     Inline.MarshalJSON i e order =
       if inlineShapeError data then (Return (Err errNotObject), e)
       else (combined (spliceJSON data meta (isDataNull data)
                         (isDataEmptyObj data)), e'))
  ∧ (Data e = None → isDataNull data = true)
  ∧ (∀ isNull isEmpty,
       (meta = [] → isNull = true →
        spliceJSON data meta isNull isEmpty = Return (B "{}"))
       ∧ (meta = [] → isNull = false →
          spliceJSON data meta isNull isEmpty = Return data)
       ∧ (meta ≠ [] → isNull = true ∨ isEmpty = true →
          spliceJSON data meta isNull isEmpty = Return meta)
       ∧ (∀ body rest,
            isNull = false → isEmpty = false →
            data = body ++ B "}" → meta = B "{" ++ rest →
            spliceJSON data meta isNull isEmpty
            = Return (body ++ B "," ++ rest))).
Proof.
  intros Hd Hm. split; [|split; [|split]].
  - intros isNull isEmpty Hc. split; [by apply MarshalJSON_steps|].
    destruct (checkJSONStructure_flags data isNull isEmpty Hc)
      as (Hnull & Hempty & _).
    split; [|done]. unfold isDataNull.
    destruct isNull.
    + destruct Hnull as [Hn _]. by destruct (Hn eq_refl) as [-> | ->].
    + symmetry. apply orb_false_iff. split.
      * apply Nat.eqb_neq. intros Hlen. destruct data; [|done].
        by assert (false = true) by (apply Hnull; by left).
      * apply bool_decide_eq_false_2. intros Heq.
        by assert (false = true) by (apply Hnull; by right).
  - intros Hnil. by apply Inline_combine.
  - intros Hnone. rewrite (marshalData_nil e Hnone) in Hd. by injection Hd as <-.
  - intros isNull isEmpty. unfold spliceJSON. split; [|split; [|split]].
    + by intros -> ->.
    + by intros -> ->.
    + intros Hne Hflag. destruct meta; [done|]. simpl.
      by destruct Hflag as [-> | ->]; [|destruct isNull].
    + intros body rest -> -> -> ->. simpl.
      rewrite length_app, Nat.add_comm. simpl.
      rewrite Nat.sub_0_r, take_app_length. done.
Qed.

End combine.

Lemma splice_four_cases_witness :
  Wrap Sample.withSelf () (Some Sample.alice) = Return Sample.aliceEnvelope
  ∧ MarshalJSON Sample.withSelf Sample.aliceEnvelope ["self"]
    = (Return (Ok Sample.aliceHAL), Sample.aliceEnvelope)
  ∧ Inline.MarshalJSON Sample.withSelf Sample.aliceEnvelope ["self"]
    = (Return (Ok Sample.aliceHAL), Sample.aliceEnvelope)
  ∧ Inline.MarshalJSON Sample.withSelf
      (mkEnvelope (Some Sample.seven) (links Sample.aliceEnvelope) ∅) ["self"]
    = (Return (Ok (B "," ++ drop 1 Sample.selfMeta)),
       mkEnvelope (Some Sample.seven) (links Sample.aliceEnvelope) ∅).
Proof.
  split; [reflexivity|].
  destruct (splice_four_cases Sample.withSelf Sample.aliceEnvelope
              Sample.aliceEnvelope ["self"] Sample.aliceJSON Sample.selfMeta)
    as (Hnew & Hold & _).
  - reflexivity.
  - by vm_compute.
  - split; [|split].
    + destruct (Hnew false false eq_refl) as [-> _]. reflexivity.
    + rewrite (Hold eq_refl). reflexivity.
    + destruct (splice_four_cases Sample.withSelf
                  (mkEnvelope (Some Sample.seven) (links Sample.aliceEnvelope) ∅)
                  (mkEnvelope (Some Sample.seven) (links Sample.aliceEnvelope) ∅)
                  ["self"] (B "7") Sample.selfMeta)
        as (_ & Hseven & _).
      * reflexivity.
      * by vm_compute.
      * rewrite (Hseven eq_refl). reflexivity.
Defined.
